(** * three-agents: the fan-out / fan-in orchestration of the backend

    A shallow embedding of the TypeScript backend (services, response model,
    controller and configuration) and of the submission handler of the
    frontend, with the properties of the natural-language specification and
    further properties of the code.

    Conventions of the embedding.
    - A JavaScript string is a [string]: a sequence of code units below 256.
      On such strings [String.prototype.trim], the regular-expression class
      [\s] and matching under the [/i] flag against ASCII pattern characters
      are exactly the functions of module [Js] below.
    - [Date.now()] returns an integral number of milliseconds; readings and
      their differences and sums are integers ([Z]).
    - An [async] function is a [Promise]: the remote invocations it issued,
      in order, and the state it ends in (fulfilled, rejected, or pending
      for ever).
    - The three remote models are opaque: a [World] fixes, for every input
      text, the clock readings around the remote call and how it settles.
    - Calls to [logger] have no influence on any result and are left out. *)

From Stdlib Require Import ZArith Ascii.
From stdpp Require Import base tactics option list strings gmap pretty.

Local Open Scope Z_scope.

(** ** JavaScript primitives used by the sources *)

Module Js.

(** Code units that [\s] matches and that [trim] strips (WhiteSpace and
    LineTerminator of ECMAScript, below 256): TAB, LF, VT, FF, CR, SP and
    NBSP. *)
Definition is_space (c : ascii) : bool :=
  match N_of_ascii c with
  | 9%N | 10%N | 11%N | 12%N | 13%N | 32%N | 160%N => true
  | _ => false
  end.

(** [Canonicalize] of a non-unicode [/i] pattern: upper case.  A code unit
    of 128 and above never canonicalizes to an ASCII one, so for matching
    against ASCII pattern characters only [a-z] have to be folded. *)
Definition canonicalize (c : ascii) : ascii :=
  let n := N_of_ascii c in
  if ((97 <=? n) && (n <=? 122))%N then ascii_of_N (n - 32) else c.

Definition ci_eqb (p c : ascii) : bool :=
  (N_of_ascii (canonicalize p) =? N_of_ascii (canonicalize c))%N.

Definition is_empty (s : string) : bool :=
  match s with "" => true | String _ _ => false end.

(** [s.trimStart()], [s.trimEnd()], [s.trim()] *)
Fixpoint trimStart (s : string) : string :=
  match s with
  | "" => ""
  | String c s' => if is_space c then trimStart s' else s
  end.

Fixpoint trimEnd (s : string) : string :=
  match s with
  | "" => ""
  | String c s' =>
      let t := trimEnd s' in
      if is_space c && is_empty t then "" else String c t
  end.

Definition trim (s : string) : string := trimEnd (trimStart s).

(** Truthiness of an optional string, as tested by [if (s)], [s || d]
    and [s && e]: [undefined] and [''] are falsy.  Answers the string
    when it is truthy. *)
Definition truthy (a : option string) : option string :=
  match a with
  | Some s => if is_empty s then None else Some s
  | None => None
  end.

(** [a || b] on an optional string. *)
Definition or_string (a : option string) (b : string) : string :=
  default b (truthy a).

(** [a || 0] on an optional number: [undefined] and [0] are falsy. *)
Definition or_zero (a : option Z) : Z :=
  match a with
  | Some n => if n =? 0 then 0 else n
  | None => 0
  end.

(** The line feed of the template literals. *)
Definition LF : string := String "010"%char "".

(** *** A backtracking matcher for the regular expressions of the parser

    Each combinator takes the continuation [k] that matches the rest of
    the pattern, and answers what the whole pattern captures. *)

(** A literal under [/i], matched at the head of [s]; answers the rest. *)
Fixpoint lit_ci (p s : string) : option string :=
  match p with
  | "" => Some s
  | String pc p' =>
      match s with
      | "" => None
      | String c s' => if ci_eqb pc c then lit_ci p' s' else None
      end
  end.

(** [\s*], greedy: as many as possible, giving back one at a time. *)
Fixpoint star_space {A} (k : string → option A) (s : string) : option A :=
  match s with
  | String c s' =>
      if is_space c
      then match star_space k s' with
           | Some r => Some r
           | None => k s
           end
      else k s
  | "" => k s
  end.

(** [([\s\S]*?)], lazy and captured: as few as possible, one more at a
    time. *)
Fixpoint lazy_any {A} (k : string → option A) (s : string)
  : option (string * A) :=
  match k s with
  | Some r => Some ("", r)
  | None =>
      match s with
      | "" => None
      | String c s' =>
          match lazy_any k s' with
          | Some (cap, r) => Some (String c cap, r)
          | None => None
          end
      end
  end.

(** [$] without the [m] flag: the end of the input. *)
Definition at_end (s : string) : option unit :=
  if is_empty s then Some () else None.

(** [(?=lit|$)]: a lookahead, consuming nothing. *)
Definition ahead_lit_or_end (p : string) (s : string) : option unit :=
  match lit_ci p s with
  | Some _ => Some ()
  | None => at_end s
  end.

(** [str.match(re)] for a pattern without the [g] flag: the leftmost
    position at which the pattern matches. *)
Fixpoint search {A} (m : string → option A) (s : string) : option A :=
  match m s with
  | Some r => Some r
  | None =>
      match s with
      | "" => None
      | String _ s' => search m s'
      end
  end.

(** Does [p] occur in [s], in any letter case? *)
Definition occurs_ci (p s : string) : bool :=
  bool_decide (is_Some (search (lit_ci p) s)).

(** Does [p] occur in [s] exactly? ([s.includes(p)]) *)
Fixpoint starts_with (p s : string) : bool :=
  match p, s with
  | "", _ => true
  | String pc p', String c s' => bool_decide (pc = c) && starts_with p' s'
  | String _ _, "" => false
  end.

Fixpoint includes (s p : string) : bool :=
  starts_with p s ||
  match s with
  | "" => false
  | String _ s' => includes s' p
  end.

End Js.

(** ** types/index.ts *)

(** A value that can be thrown, or be the reason of a rejected promise.
    [JsError] and [AgentError] are [instanceof Error]; [stack] is the trace
    the runtime captured when the object was constructed. *)
Inductive Thrown : Type :=
| JsError (message : string) (stack : option string)
| AgentError (message agentName : string) (originalError : Thrown)
    (stack : option string)
| NonError (shown : string).

(** [e instanceof Error ? e.message : undefined] *)
Definition error_message (e : Thrown) : option string :=
  match e with
  | JsError m _ => Some m
  | AgentError m _ _ _ => Some m
  | NonError _ => None
  end.

(** [e instanceof Error ? e.stack : undefined] *)
Definition error_stack (e : Thrown) : option string :=
  match e with
  | JsError _ s => s
  | AgentError _ _ _ s => s
  | NonError _ => None
  end.

Module Metadata.
Record t : Type := mk {
  geminiTime : option Z;
  openaiTime : option Z;
  claudeTime : option Z;
  totalTime : Z
}.
End Metadata.

Module AgentState.
Record t : Type := mk {
  question : string;
  geminiResponse : option string;
  geminiError : option string;
  openaiResponse : option string;
  openaiError : option string;
  finalAnswer : option string;
  reasoning : option string;
  metadata : Metadata.t
}.
End AgentState.

Module AgentResponse.
Record t : Type := mk {
  response : string;
  processingTime : Z;
  error : option string
}.
End AgentResponse.

Module ClaudeResponse.
Record t : Type := mk {
  finalAnswer : string;
  reasoning : string;
  processingTime : Z
}.
End ClaudeResponse.

Module Agents.
Record t : Type := mk {
  gemini : AgentResponse.t;
  openai : AgentResponse.t;
  claude : ClaudeResponse.t
}.
End Agents.

Module ChatResponseData.
Record t : Type := mk {
  question : string;
  agents : Agents.t;
  totalProcessingTime : Z
}.
End ChatResponseData.

Module ChatResponse.
Record t : Type := mk {
  success : bool;
  data : option ChatResponseData.t;
  error : option string;
  details : option string
}.
End ChatResponse.

(** The value of [req.body.question]: any JSON value, or [undefined] when
    the member is missing. *)
Inductive JsValue : Type :=
| JsUndefined
| JsNull
| JsBool (b : bool)
| JsNumber (n : Z)
| JsString (s : string)
| JsObject.

(** [!!v] *)
Definition to_boolean (v : JsValue) : bool :=
  match v with
  | JsUndefined | JsNull => false
  | JsBool b => b
  | JsNumber n => negb (n =? 0)
  | JsString s => negb (Js.is_empty s)
  | JsObject => true
  end.

(** ** Promises, remote invocations and the world *)

Inductive Agent : Type := Gemini | OpenAI | Claude.

(** One call of a remote model's [invoke], with the text sent. *)
Inductive Invocation : Type := Invoke (agent : Agent) (input : string).

Inductive PromiseState (A : Type) : Type :=
| Pending
| Fulfilled (value : A)
| Rejected (reason : Thrown).
Arguments Pending {A}.
Arguments Fulfilled {A} value.
Arguments Rejected {A} reason.

(** An asynchronous computation run to its end: the remote invocations it
    issued, in order, and the state its promise stays in. *)
Record Promise (A : Type) : Type := mkPromise {
  issued : list Invocation;
  outcome : PromiseState A
}.
Arguments mkPromise {A} issued outcome.
Arguments issued {A} p.
Arguments outcome {A} p.

(** [return v] *)
Definition resolve {A} (v : A) : Promise A := mkPromise [] (Fulfilled v).

(** [throw e] *)
Definition throw {A} (e : Thrown) : Promise A := mkPromise [] (Rejected e).

(** [const x = await p; k x] *)
Definition await {A B} (k : A → Promise B) (p : Promise A) : Promise B :=
  match outcome p with
  | Fulfilled v => mkPromise (issued p ++ issued (k v)) (outcome (k v))
  | Rejected e => mkPromise (issued p) (Rejected e)
  | Pending => mkPromise (issued p) Pending
  end.

(** [try { body } catch (error) { handler error }] *)
Definition try_catch {A} (body : Promise A) (handler : Thrown → Promise A)
  : Promise A :=
  match outcome body with
  | Rejected e =>
      mkPromise (issued body ++ issued (handler e)) (outcome (handler e))
  | _ => body
  end.

#[global] Instance Promise_ret : MRet Promise := @resolve.
#[global] Instance Promise_bind : MBind Promise := @await.

(** The points at which a service reads [Date.now()]: just before it calls
    its remote model, and right after that call has settled. *)
Inductive Instant : Type := Before (agent : Agent) | After (agent : Agent).

(** Which of the two branch promises settles first. *)
Inductive SettleOrder : Type := GeminiFirst | OpenAIFirst.

(** Everything outside the program during one request. *)
Record World : Type := mkWorld {
  (** how the remote call of an agent settles on an input: the reply text
      the service extracts, or what was thrown inside its [try] block *)
  remote : Agent → string → Thrown + string;
  (** the readings of [Date.now()] *)
  now : Instant → Z;
  (** the stack trace captured for an error constructed with a message *)
  stackOf : string → option string;
  settleOrder : SettleOrder
}.

(** [await client.invoke([new HumanMessage(input)])] and the extraction of
    the reply text.  A world settles every remote call: the runs described
    are those in which each call returns or throws, and a call that never
    settles (the code sets no timeout) is outside the model. *)
Definition invoke (w : World) (agent : Agent) (input : string)
  : Promise string :=
  mkPromise [Invoke agent input]
    match remote w agent input with
    | inr text => Fulfilled text
    | inl e => Rejected e
    end.

(** *** [Promise.allSettled]

    The joint promise keeps one slot per element and a count of the elements
    still to settle.  The settlement of element [index] stores its result in
    slot [index] and counts down; the joint promise is resolved with the
    slots when the count reaches zero. *)

Inductive SettledResult (A : Type) : Type :=
| fulfilled (value : A)
| rejected (reason : Thrown).
Arguments fulfilled {A} value.
Arguments rejected {A} reason.

Record Join (A : Type) : Type := mkJoin {
  values : list (option (SettledResult A));
  remainingElementsCount : nat
}.
Arguments mkJoin {A} values remainingElementsCount.
Arguments values {A} j.
Arguments remainingElementsCount {A} j.

Definition join_init {A} (n : nat) : Join A := mkJoin (replicate n None) n.

Definition join_settle {A} (j : Join A) (ev : nat * SettledResult A)
  : Join A :=
  mkJoin (<[ev.1 := Some ev.2]> (values j)) (pred (remainingElementsCount j)).

Definition join_resolved {A} (j : Join A) : option (list (SettledResult A)) :=
  match remainingElementsCount j with
  | O => mapM id (values j)
  | S _ => None
  end.

(** The settlement of an element promise, as the joint promise sees it; a
    promise that stays pending never reports. *)
Definition settlement {A} (index : nat) (p : Promise A)
  : list (nat * SettledResult A) :=
  match outcome p with
  | Fulfilled v => [(index, fulfilled v)]
  | Rejected e => [(index, rejected e)]
  | Pending => []
  end.

(** The settlements that reach the joint promise, in the order [arrival]
    (indices into [ps]). *)
Definition settlements {A} (arrival : list nat) (ps : list (Promise A))
  : list (nat * SettledResult A) :=
  arrival ≫= (λ i, match ps !! i with
                   | Some p => settlement i p
                   | None => []
                   end).

(** [await Promise.allSettled(ps)]: every element has been called, in array
    order, before the wait starts; the wait is over when the joint promise
    is resolved. *)
Definition allSettled {A} (arrival : list nat) (ps : list (Promise A))
  : Promise (list (SettledResult A)) :=
  mkPromise (ps ≫= issued)
    match
      join_resolved
        (foldl join_settle (join_init (length ps)) (settlements arrival ps))
    with
    | Some results => Fulfilled results
    | None => Pending
    end.

Definition arrival_of (o : SettleOrder) : list nat :=
  match o with
  | GeminiFirst => [0; 1]%nat
  | OpenAIFirst => [1; 0]%nat
  end.


(** ** services/gemini.service.ts and services/openai.service.ts *)

Module QueryResult.
Record t : Type := mk {
  response : string;
  time : Z
}.
End QueryResult.

Definition queryGemini (w : World) (question : string)
  : Promise QueryResult.t :=
  let startTime := now w (Before Gemini) in
  try_catch
    (responseText ← invoke w Gemini question;
     let time := now w (After Gemini) - startTime in
     mret (QueryResult.mk responseText time))
    (λ error,
       throw (AgentError "Failed to get response from Gemini" "Gemini" error
                (stackOf w "Failed to get response from Gemini"))).

Definition queryOpenAI (w : World) (question : string)
  : Promise QueryResult.t :=
  let startTime := now w (Before OpenAI) in
  try_catch
    (responseText ← invoke w OpenAI question;
     let time := now w (After OpenAI) - startTime in
     mret (QueryResult.mk responseText time))
    (λ error,
       throw (AgentError "Failed to get response from OpenAI" "OpenAI" error
                (stackOf w "Failed to get response from OpenAI"))).

(** ** services/claude.service.ts *)

Module SynthesisInput.
Record t : Type := mk {
  question : string;
  geminiResponse : option string;
  geminiError : option string;
  openaiResponse : option string;
  openaiError : option string
}.
End SynthesisInput.

Module SynthesisOutput.
Record t : Type := mk {
  finalAnswer : string;
  reasoning : string;
  time : Z
}.
End SynthesisOutput.

Module Parsed.
Record t : Type := mk {
  finalAnswer : string;
  reasoning : string
}.
End Parsed.

Import Js.

(** The section of the prompt for one branch:
    [if (response) { ... } else if (error) { ... }] *)
Definition branch_section (name : string) (response error : option string)
  : string :=
  match truthy response, truthy error with
  | Some text, _ => name +:+ "'s Response:" +:+ LF +:+ text +:+ LF +:+ LF
  | None, Some message =>
      name +:+ "'s Response: [ERROR] " +:+ message +:+ LF +:+ LF
  | None, None => ""
  end.

Definition prompt_head (question : string) : string :=
  "You are tasked with synthesizing and evaluating responses from multiple AI models to provide the best possible answer to a user's question."
  +:+ LF +:+ LF +:+ "Original Question: " +:+ question +:+ LF +:+ LF.

Definition prompt_task : string :=
  "Your task:" +:+ LF +:+
  "1. Analyze both responses (if available) for accuracy, completeness, and quality" +:+ LF +:+
  "2. Synthesize the best aspects of both responses into a single, comprehensive answer" +:+ LF +:+
  "3. If only one response is available (due to errors), evaluate and potentially improve it" +:+ LF +:+
  "4. Provide clear reasoning for your synthesis approach" +:+ LF +:+ LF +:+
  "Please structure your response EXACTLY as follows:" +:+ LF +:+ LF +:+
  "REASONING:" +:+ LF +:+
  "[Your detailed reasoning about the responses and your synthesis approach]" +:+ LF +:+ LF +:+
  "FINAL ANSWER:" +:+ LF +:+
  "[Your synthesized answer to the original question]".

Definition buildSynthesisPrompt (input : SynthesisInput.t) : string :=
  let prompt := prompt_head (SynthesisInput.question input) in
  let prompt :=
    prompt +:+ branch_section "Gemini" (SynthesisInput.geminiResponse input)
                 (SynthesisInput.geminiError input) in
  let prompt :=
    prompt +:+ branch_section "OpenAI" (SynthesisInput.openaiResponse input)
                 (SynthesisInput.openaiError input) in
  prompt +:+ prompt_task.

(** [/REASONING:\s*([\s\S]*?)(?=FINAL ANSWER:|$)/i], tried at the head of
    [s]; answers capture group 1. *)
Definition reasoning_re (s : string) : option string :=
  rest ← lit_ci "REASONING:" s;
  fst <$> star_space (lazy_any (ahead_lit_or_end "FINAL ANSWER:")) rest.

(** [/FINAL ANSWER:\s*([\s\S]*?)$/i], tried at the head of [s]; answers
    capture group 1. *)
Definition finalAnswer_re (s : string) : option string :=
  rest ← lit_ci "FINAL ANSWER:" s;
  fst <$> star_space (lazy_any at_end) rest.

Definition parseClaudeResponse (response : string) : Parsed.t :=
  let reasoningMatch := search reasoning_re response in
  let finalAnswerMatch := search finalAnswer_re response in
  let reasoning :=
    or_string (trim <$> reasoningMatch) "No reasoning provided" in
  let finalAnswer :=
    or_string (trim <$> finalAnswerMatch) (trim response) in
  Parsed.mk finalAnswer reasoning.

Definition synthesizeResponses (w : World) (input : SynthesisInput.t)
  : Promise SynthesisOutput.t :=
  let startTime := now w (Before Claude) in
  try_catch
    (let prompt := buildSynthesisPrompt input in
     responseText ← invoke w Claude prompt;
     let time := now w (After Claude) - startTime in
     let parsed := parseClaudeResponse responseText in
     mret (SynthesisOutput.mk (Parsed.finalAnswer parsed)
             (Parsed.reasoning parsed) time))
    (λ error,
       throw (AgentError "Failed to synthesize responses with Claude" "Claude"
                error
                (stackOf w "Failed to synthesize responses with Claude"))).

(** ** services/agent.service.ts *)

Import AgentState.

(** [updatedState.metadata.geminiTime = time].  The copy [{ ...state }] is
    shallow, so the assignment also reaches the [metadata] object of the
    state passed in; that state is not read again. *)
Definition set_geminiTime (time : Z) (m : Metadata.t) : Metadata.t :=
  Metadata.mk (Some time) (Metadata.openaiTime m) (Metadata.claudeTime m)
    (Metadata.totalTime m).

Definition set_openaiTime (time : Z) (m : Metadata.t) : Metadata.t :=
  Metadata.mk (Metadata.geminiTime m) (Some time) (Metadata.claudeTime m)
    (Metadata.totalTime m).

(** [reason instanceof Error ? reason.message : 'Unknown error'] *)
Definition errorMessage (reason : Thrown) : string :=
  default "Unknown error" (error_message reason).

Definition process_gemini (geminiResult : SettledResult QueryResult.t)
    (updatedState : AgentState.t) : AgentState.t :=
  match geminiResult with
  | fulfilled value =>
      AgentState.mk (question updatedState)
        (Some (QueryResult.response value)) (geminiError updatedState)
        (openaiResponse updatedState) (openaiError updatedState)
        (finalAnswer updatedState) (reasoning updatedState)
        (set_geminiTime (QueryResult.time value) (metadata updatedState))
  | rejected reason =>
      AgentState.mk (question updatedState)
        (geminiResponse updatedState) (Some (errorMessage reason))
        (openaiResponse updatedState) (openaiError updatedState)
        (finalAnswer updatedState) (reasoning updatedState)
        (metadata updatedState)
  end.

Definition process_openai (openaiResult : SettledResult QueryResult.t)
    (updatedState : AgentState.t) : AgentState.t :=
  match openaiResult with
  | fulfilled value =>
      AgentState.mk (question updatedState)
        (geminiResponse updatedState) (geminiError updatedState)
        (Some (QueryResult.response value)) (openaiError updatedState)
        (finalAnswer updatedState) (reasoning updatedState)
        (set_openaiTime (QueryResult.time value) (metadata updatedState))
  | rejected reason =>
      AgentState.mk (question updatedState)
        (geminiResponse updatedState) (geminiError updatedState)
        (openaiResponse updatedState) (Some (errorMessage reason))
        (finalAnswer updatedState) (reasoning updatedState)
        (metadata updatedState)
  end.

(** The body of [runParallelAgents], when the settlements that have reached
    [Promise.allSettled] are those of the promises listed in [arrival]
    (0 for Gemini, 1 for OpenAI), in that order. *)
Definition runParallelAgents_with (arrival : list nat) (w : World)
    (state : AgentState.t) : Promise AgentState.t :=
  results ← allSettled arrival
              [queryGemini w (question state); queryOpenAI w (question state)];
  match results with
  | geminiResult :: openaiResult :: _ =>
      let updatedState := state in
      let updatedState := process_gemini geminiResult updatedState in
      let updatedState := process_openai openaiResult updatedState in
      mret updatedState
  | _ =>
      (* not reached: the array of results is as long as that of promises *)
      throw (JsError "Cannot read properties of undefined (reading 'status')"
               None)
  end.

(** [runParallelAgents] in a world: both promises settle, in the order of
    the world. *)
Definition runParallelAgents (w : World) (state : AgentState.t)
  : Promise AgentState.t :=
  runParallelAgents_with (arrival_of (settleOrder w)) w state.

Definition runClaudeSynthesis (w : World) (state : AgentState.t)
  : Promise AgentState.t :=
  out ← synthesizeResponses w
          (SynthesisInput.mk (question state)
             (geminiResponse state) (geminiError state)
             (openaiResponse state) (openaiError state));
  let time := SynthesisOutput.time out in
  let totalTime :=
    or_zero (Metadata.geminiTime (metadata state)) +
    or_zero (Metadata.openaiTime (metadata state)) +
    time in
  mret (AgentState.mk (question state)
          (geminiResponse state) (geminiError state)
          (openaiResponse state) (openaiError state)
          (Some (SynthesisOutput.finalAnswer out))
          (Some (SynthesisOutput.reasoning out))
          (Metadata.mk (Metadata.geminiTime (metadata state))
             (Metadata.openaiTime (metadata state))
             (Some time) totalTime)).

Definition initialState (question : string) : AgentState.t :=
  AgentState.mk question None None None None None None
    (Metadata.mk None None None 0).

Definition executeAgentWorkflow (w : World) (question : string)
  : Promise AgentState.t :=
  try_catch
    (stateAfterAgents ← runParallelAgents w (initialState question);
     finalState ← runClaudeSynthesis w stateAfterAgents;
     mret finalState)
    (λ error, throw error).

(** ** models/response.model.ts *)

Definition formatSuccessResponse (state : AgentState.t) : ChatResponse.t :=
  let geminiResponse :=
    AgentResponse.mk (or_string (geminiResponse state) "")
      (or_zero (Metadata.geminiTime (metadata state)))
      (truthy (geminiError state)) in
  let openaiResponse :=
    AgentResponse.mk (or_string (openaiResponse state) "")
      (or_zero (Metadata.openaiTime (metadata state)))
      (truthy (openaiError state)) in
  let data :=
    ChatResponseData.mk (question state)
      (Agents.mk geminiResponse openaiResponse
         (ClaudeResponse.mk (or_string (finalAnswer state) "")
            (or_string (reasoning state) "")
            (or_zero (Metadata.claudeTime (metadata state)))))
      (Metadata.totalTime (metadata state)) in
  ChatResponse.mk true (Some data) None None.

Definition formatErrorResponse (error : Thrown) : ChatResponse.t :=
  let errorMessage :=
    default "An unknown error occurred" (error_message error) in
  let errorDetails := error_stack error in
  ChatResponse.mk false None (Some errorMessage) errorDetails.

(** ** controllers/chat.controller.ts *)

(** What the controller sends: [res.status(status).json(body)]. *)
Record Reply : Type := mkReply {
  status : nat;
  body : ChatResponse.t
}.

(** [typeof v === 'string'] *)
Definition typeof_string (v : JsValue) : bool :=
  match v with JsString _ => true | _ => false end.

(** [question.trim() === '']; it is evaluated for strings only, after the
    test of [typeof]. *)
Definition trims_to_empty (v : JsValue) : bool :=
  match v with JsString s => is_empty (trim s) | _ => false end.

Definition askQuestion (w : World) (question : JsValue) : Promise Reply :=
  try_catch
    (if negb (to_boolean question) || negb (typeof_string question)
        || trims_to_empty question
     then
       let message := "Question is required and must be a non-empty string" in
       mret (mkReply 400
               (formatErrorResponse (JsError message (stackOf w message))))
     else
       match question with
       | JsString question =>
           result ← executeAgentWorkflow w (trim question);
           let response := formatSuccessResponse result in
           mret (mkReply 200 response)
       | _ =>
           (* not reached: the test above lets only strings through *)
           throw (JsError "question.trim is not a function" None)
       end)
    (λ error,
       let response := formatErrorResponse error in
       mret (mkReply 500 response)).

(** [askQuestion] from the body of the request.  [Some question] is a body
    whose property [question] reads as [question] ([undefined] when the
    body has no such property).  [None] is a request without a body:
    [req.body] is [undefined], the destructuring
    [const { question } = req.body] throws the TypeError of the engine
    inside the [try] block, and the [catch] block answers. *)
Definition askRequest (w : World) (typeError : Thrown)
    (body : option JsValue) : Promise Reply :=
  match body with
  | Some question => askQuestion w question
  | None =>
      try_catch (throw typeError)
        (λ error,
           let response := formatErrorResponse error in
           mret (mkReply 500 response))
  end.

(** ** Notions of the specification, in terms of the program *)

(** The two branches of the fan-out: branch A is the Gemini caller and
    branch B the OpenAI caller. *)
Inductive Branch : Type := BranchA | BranchB.

Definition branch_agent (b : Branch) : Agent :=
  match b with BranchA => Gemini | BranchB => OpenAI end.

Definition branch_name (b : Branch) : string :=
  match b with BranchA => "Gemini" | BranchB => "OpenAI" end.

(** The BranchCaller of a branch. *)
Definition branch_caller (b : Branch) (w : World)
  : string → Promise QueryResult.t :=
  match b with BranchA => queryGemini w | BranchB => queryOpenAI w end.

(** The fixed message of the error a branch caller throws. *)
Definition wrapper_message (b : Branch) : string :=
  match b with
  | BranchA => "Failed to get response from Gemini"
  | BranchB => "Failed to get response from OpenAI"
  end.

(** The fields of a branch in the workflow state and in the response. *)
Definition state_response (b : Branch) (st : AgentState.t) : option string :=
  match b with BranchA => geminiResponse st | BranchB => openaiResponse st end.

Definition state_error (b : Branch) (st : AgentState.t) : option string :=
  match b with BranchA => geminiError st | BranchB => openaiError st end.

Definition state_time (b : Branch) (st : AgentState.t) : option Z :=
  match b with
  | BranchA => Metadata.geminiTime (metadata st)
  | BranchB => Metadata.openaiTime (metadata st)
  end.

Definition reported (b : Branch) (d : ChatResponseData.t) : AgentResponse.t :=
  match b with
  | BranchA => Agents.gemini (ChatResponseData.agents d)
  | BranchB => Agents.openai (ChatResponseData.agents d)
  end.

(** The remote call of a branch fails on the question. *)
Definition branch_fails (w : World) (b : Branch) (q : string) : Prop :=
  ∃ e, remote w (branch_agent b) q = inl e.

(** The time from just before the remote call of an agent to the moment it
    has settled. *)
Definition elapsed (w : World) (a : Agent) : Z :=
  now w (After a) - now w (Before a).

(** The synthesis call that the workflow issues on the question settles with
    a reply, or with a failure. *)
Definition synthesis_succeeds (w : World) (q : string) : Prop :=
  ∃ prompt reply,
    Invoke Claude prompt ∈ issued (executeAgentWorkflow w q) ∧
    remote w Claude prompt = inr reply.

Definition synthesis_fails (w : World) (q : string) : Prop :=
  ∃ prompt e,
    Invoke Claude prompt ∈ issued (executeAgentWorkflow w q) ∧
    remote w Claude prompt = inl e.

(** The same world with the branches settling in another order. *)
Definition with_order (o : SettleOrder) (w : World) : World :=
  mkWorld (remote w) (now w) (stackOf w) o.

(** How the promise of a branch caller settles, as an entry of the array
    of [Promise.allSettled]. *)
Definition branch_result (w : World) (b : Branch) (q : string)
  : SettledResult QueryResult.t :=
  match remote w (branch_agent b) q with
  | inr text => fulfilled (QueryResult.mk text (elapsed w (branch_agent b)))
  | inl e =>
      rejected (AgentError (wrapper_message b) (branch_name b) e
                  (stackOf w (wrapper_message b)))
  end.

(** The state of a promise that settled with the given result. *)
Definition settled_as {A} (r : SettledResult A) : PromiseState A :=
  match r with
  | fulfilled v => Fulfilled v
  | rejected e => Rejected e
  end.

(** The workflow state after the fan-out, and the prompt built from it. *)
Definition state_after_agents (w : World) (q : string) : AgentState.t :=
  process_openai (branch_result w BranchB q)
    (process_gemini (branch_result w BranchA q) (initialState q)).

Definition synthesis_input (st : AgentState.t) : SynthesisInput.t :=
  SynthesisInput.mk (question st) (geminiResponse st) (geminiError st)
    (openaiResponse st) (openaiError st).

Definition workflow_prompt (w : World) (q : string) : string :=
  buildSynthesisPrompt (synthesis_input (state_after_agents w q)).

(** The error that [synthesizeResponses] throws when its remote call fails
    with [e]. *)
Definition synthesis_error (w : World) (e : Thrown) : Thrown :=
  AgentError "Failed to synthesize responses with Claude" "Claude" e
    (stackOf w "Failed to synthesize responses with Claude").

(** The workflow state after a synthesis that settled with [reply]. *)
Definition final_state (w : World) (q reply : string) : AgentState.t :=
  let st := state_after_agents w q in
  let parsed := parseClaudeResponse reply in
  AgentState.mk (question st)
    (geminiResponse st) (geminiError st) (openaiResponse st) (openaiError st)
    (Some (Parsed.finalAnswer parsed)) (Some (Parsed.reasoning parsed))
    (Metadata.mk (Metadata.geminiTime (metadata st))
       (Metadata.openaiTime (metadata st))
       (Some (elapsed w Claude))
       (or_zero (Metadata.geminiTime (metadata st)) +
        or_zero (Metadata.openaiTime (metadata st)) +
        elapsed w Claude)).

(** A reply of the synthesis model in the form the prompt asks for:
    [REASONING:\n<r>\n\nFINAL ANSWER:\n<a>]. *)
Definition structured_reply (r a : string) : string :=
  "REASONING:" +:+ LF +:+ r +:+ LF +:+ LF +:+ "FINAL ANSWER:" +:+ LF +:+ a.

(** The section of the prompt that tells the synthesizer the result of a
    branch: its response text, or an error marker with its failure message. *)
Definition expected_section (w : World) (b : Branch) (q : string) : string :=
  match remote w (branch_agent b) q with
  | inr text => branch_name b +:+ "'s Response:" +:+ LF +:+ text +:+ LF +:+ LF
  | inl _ =>
      branch_name b +:+ "'s Response: [ERROR] " +:+ wrapper_message b
        +:+ LF +:+ LF
  end.

(** The report of a branch in the response agrees with how the branch ended:
    an error exactly when it failed, then with an empty text; the text and no
    error when it succeeded; never an error next to a text. *)
Definition reported_consistently (w : World) (b : Branch) (q : string)
    (r : AgentResponse.t) : Prop :=
  (is_Some (AgentResponse.error r) ↔ branch_fails w b q) ∧
  (branch_fails w b q → AgentResponse.response r = "") ∧
  (∀ text, remote w (branch_agent b) q = inr text →
           AgentResponse.response r = text ∧ AgentResponse.error r = None) ∧
  ¬ (is_Some (AgentResponse.error r) ∧ AgentResponse.response r ≠ "").

(** The request carries a question that is a string and is not empty after
    trimming: the controller accepts it. *)
Definition accepted (question : JsValue) : option string :=
  match question with
  | JsString s => if is_empty (trim s) then None else Some s
  | _ => None
  end.

(** A question that is missing, not a string, or empty after trimming. *)
Definition invalid_question (question : JsValue) : Prop :=
  match question with
  | JsString s => trim s = ""
  | _ => True
  end.

(** No suffix of [pre] that is not empty is, followed by [rest], matched by
    [m]: the leftmost match of [m] in [pre +:+ rest] starts in [rest]. *)
Fixpoint no_match_before {A} (m : string → option A) (pre rest : string)
  : Prop :=
  match pre with
  | "" => True
  | String _ pre' => m (pre +:+ rest) = None ∧ no_match_before m pre' rest
  end.

(** No character of the pattern matches a line feed. *)
Fixpoint free_of_LF (p : string) : bool :=
  match p with
  | "" => true
  | String c p' => negb (ci_eqb c "010") && free_of_LF p'
  end.

(** The slot of a branch in the state [after] the fan-out holds the outcome
    of that branch: its text and elapsed time when its remote call
    succeeded, the message of its caller when it failed; the other fields
    of the slot are those of the state [before]. *)
Definition slot_holds (w : World) (b : Branch) (q : string)
    (before after : AgentState.t) : Prop :=
  match remote w (branch_agent b) q with
  | inr text =>
      state_response b after = Some text ∧
      state_time b after = Some (elapsed w (branch_agent b)) ∧
      state_error b after = state_error b before
  | inl _ =>
      state_error b after = Some (wrapper_message b) ∧
      state_response b after = state_response b before ∧
      state_time b after = state_time b before
  end.

(** What the prompt says of a branch: the expected section, and nothing for
    a branch that succeeded with an empty text. *)
Definition told_section (w : World) (b : Branch) (q : string) : string :=
  match remote w (branch_agent b) q with
  | inr "" => ""
  | _ => expected_section w b q
  end.

(** The controller answers every accepted request whose trimmed question is
    [q] with the given status and body. *)
Definition answers (w : World) (q : string) (status : nat)
    (body : ChatResponse.t) : Prop :=
  ∀ question s,
    accepted question = Some s → trim s = q →
    outcome (askQuestion w question) = Fulfilled (mkReply status body).

(** *** Concrete requests

    A request in which the three remote calls settle as given, whatever the
    text sent; the Gemini call takes 100 ms, the OpenAI call 150 ms and the
    synthesis call 50 ms. *)
Definition scenario (gemini openai claude : Thrown + string)
    (order : SettleOrder) : World :=
  mkWorld
    (λ agent _,
       match agent with
       | Gemini => gemini
       | OpenAI => openai
       | Claude => claude
       end)
    (λ instant,
       match instant with
       | Before Gemini => 1000
       | Before OpenAI => 1001
       | After Gemini => 1100
       | After OpenAI => 1151
       | Before Claude => 1152
       | After Claude => 1202
       end)
    (λ _, None)
    order.

Definition paris_reply : string :=
  structured_reply "Both agree." "Paris.".

(** The end-to-end scenario of the specification. *)
Definition paris : World :=
  scenario (inr "Paris") (inr "Paris, France") (inr paris_reply) GeminiFirst.

(** The Gemini call fails quickly with a network error, before the OpenAI
    call succeeds. *)
Definition gemini_down : World :=
  scenario (inl (JsError "socket hang up" None)) (inr "Paris, France")
    (inr paris_reply) GeminiFirst.

(** Both branches succeed, the synthesis call fails. *)
Definition claude_down : World :=
  scenario (inr "Paris") (inr "Paris, France")
    (inl (JsError "overloaded" (Some "Error: overloaded"))) OpenAIFirst.

(** Both branch calls fail. *)
Definition both_down : World :=
  scenario (inl (JsError "socket hang up" None))
    (inl (JsError "rate limit" None)) (inr paris_reply) OpenAIFirst.

(** The Gemini call succeeds with an empty text. *)
Definition gemini_silent : World :=
  scenario (inr "") (inr "Paris, France") (inr paris_reply) GeminiFirst.

(** [m] is the pattern [p] up to letter case. *)
Fixpoint matches_ci (p m : string) : bool :=
  match p, m with
  | "", "" => true
  | String pc p', String c m' => ci_eqb pc c && matches_ci p' m'
  | _, _ => false
  end.

(** No character of [s] matches the pattern character [x]. *)
Fixpoint free_of (x : ascii) (s : string) : bool :=
  match s with
  | "" => true
  | String c s' => negb (ci_eqb x c) && free_of x s'
  end.

(** ** config/llm.config.ts *)

(** [parseInt(s, 10)]: leading white space is skipped, then an optional
    sign, then the longest run of decimal digits is read; [NaN] ([None])
    when there is no digit.  The integer read is the Number returned as long
    as it is below 2^53, which every port number is. *)
Definition is_digit (c : ascii) : bool :=
  ((48 <=? N_of_ascii c) && (N_of_ascii c <=? 57))%N.

Fixpoint digits_value (acc : Z) (s : string) : Z :=
  match s with
  | String c s' =>
      if is_digit c
      then digits_value (10 * acc + (Z.of_N (N_of_ascii c) - 48)) s'
      else acc
  | "" => acc
  end.

Definition parseInt (s : string) : option Z :=
  let '(sign, input) :=
    match trimStart s with
    | String "-" rest => (-1, rest)
    | String "+" rest => (1, rest)
    | input => (1, input)
    end in
  match input with
  | String c _ =>
      if is_digit c then Some (sign * digits_value 0 input) else None
  | "" => None
  end.

(** [parts.join(sep)] *)
Fixpoint join (sep : string) (parts : list string) : string :=
  match parts with
  | [] => ""
  | [part] => part
  | part :: parts' => part +:+ sep +:+ join sep parts'
  end.

Module EnvConfig.
Record t : Type := mk {
  PORT : option Z;
  GEMINI_API_KEY : option string;
  OPENAI_API_KEY : option string;
  ANTHROPIC_API_KEY : option string;
  GEMINI_MODEL : string;
  OPENAI_MODEL : string;
  CLAUDE_MODEL : string
}.
End EnvConfig.

Definition requiredEnvVars : list string :=
  ["GEMINI_API_KEY"; "OPENAI_API_KEY"].

(** [validateEnv()], on the variables [env] of [process.env]; [stack] is
    the trace captured when the error is constructed.  The three keys are
    read with [!], which checks nothing: a key is [None] when its variable
    is not set. *)
Definition validateEnv (stack : option string) (env : gmap string string)
  : Thrown + EnvConfig.t :=
  let missing :=
    filter (λ varName, truthy (env !! varName) = None) requiredEnvVars in
  if bool_decide (0 < length missing)%nat
  then
    inl (JsError
           ("Missing required environment variables: " +:+ join ", " missing)
           stack)
  else
    inr (EnvConfig.mk
           (parseInt (or_string (env !! "PORT") "3000"))
           (env !! "GEMINI_API_KEY")
           (env !! "OPENAI_API_KEY")
           (env !! "ANTHROPIC_API_KEY")
           (or_string (env !! "GEMINI_MODEL") "gemini-2.5-flash")
           (or_string (env !! "OPENAI_MODEL") "gpt-5-mini")
           (or_string (env !! "CLAUDE_MODEL") "claude-sonnet-4-5-20250929")).

(** ** frontend: the component [App]

    One call of [handleSubmit] on the state the component was rendered
    with, while no other update of the state intervenes.  [fetch] stands
    for the network and the server: what the request with a question comes
    back with. *)

Module Message.
Record t : Type := mk {
  id : string;
  question : string;
  response : option ChatResponseData.t;
  error : option string;
  timestamp : Z
}.
End Message.

Module App.
Record t : Type := mk {
  question : string;
  messages : list Message.t;
  loading : bool
}.
End App.

(** [await fetch(...)] followed by [await response.json()]: an exception,
    or the object read from the body. *)
Inductive Fetched : Type :=
| fetch_throws (err : Thrown)
| fetch_json (data : ChatResponse.t).

(** [{ ...msg, response: d }] and [{ ...msg, error: e }] *)
Definition with_response (d : ChatResponseData.t) (msg : Message.t)
  : Message.t :=
  Message.mk (Message.id msg) (Message.question msg) (Some d)
    (Message.error msg) (Message.timestamp msg).

Definition with_error (e : string) (msg : Message.t) : Message.t :=
  Message.mk (Message.id msg) (Message.question msg) (Message.response msg)
    (Some e) (Message.timestamp msg).

(** [prev.map((msg) => msg.id === messageId ? f(msg) : msg)] *)
Definition update_message (messageId : string) (f : Message.t → Message.t)
    (prev : list Message.t) : list Message.t :=
  (λ msg, if bool_decide (Message.id msg = messageId) then f msg else msg)
    <$> prev.

(** [handleSubmit]: [clock] is the reading of [Date.now()] and [stamp] the
    time of [new Date()].  Answers the questions sent to the server and the
    state after the call. *)
Definition handleSubmit (clock stamp : Z) (fetch : string → Fetched)
    (st : App.t) : list string * App.t :=
  if is_empty (trim (App.question st)) || App.loading st then ([], st)
  else
    let currentQuestion := trim (App.question st) in
    let messageId := pretty clock in
    let newMessage := Message.mk messageId currentQuestion None None stamp in
    let messages := App.messages st ++ [newMessage] in
    let messages :=
      match fetch currentQuestion with
      | fetch_json data =>
          match
            if ChatResponse.success data then ChatResponse.data data else None
          with
          | Some d => update_message messageId (with_response d) messages
          | None =>
              update_message messageId
                (with_error
                   (or_string (ChatResponse.error data) "An error occurred"))
                messages
          end
      | fetch_throws err =>
          update_message messageId
            (with_error
               (default "Network error - unable to reach server"
                  (error_message err)))
            messages
      end in
    ([currentQuestion], App.mk "" messages false).

(** What the component renders for a message:
    [message.error ? ... : message.response ? ... : ...] *)
Inductive MessageView : Type :=
| ErrorBlock (error : string)
| ResponseBlock (response : ChatResponseData.t)
| LoadingBlock.

Definition message_view (message : Message.t) : MessageView :=
  match truthy (Message.error message) with
  | Some e => ErrorBlock e
  | None =>
      match Message.response message with
      | Some r => ResponseBlock r
      | None => LoadingBlock
      end
  end.

(** What the card of an agent shows: [agent.error ? ... : ...] *)
Inductive AgentCard : Type :=
| AgentErrorCard (error : string)
| AgentTextCard (response : string).

Definition agent_card (a : AgentResponse.t) : AgentCard :=
  match truthy (AgentResponse.error a) with
  | Some e => AgentErrorCard e
  | None => AgentTextCard (AgentResponse.response a)
  end.

(** The requests of the component are answered by the controller in the
    world [w]. *)
Definition served_by (w : World) (fetch : string → Fetched) : Prop :=
  ∀ q r,
    outcome (askQuestion w (JsString q)) = Fulfilled r →
    fetch q = fetch_json (body r).

(** The server of the world [w], as seen through [fetch]. *)
Definition server (w : World) (q : string) : Fetched :=
  match outcome (askQuestion w (JsString q)) with
  | Fulfilled r => fetch_json (body r)
  | Rejected e => fetch_throws e
  | Pending => fetch_throws (NonError "no answer")
  end.

(** *** Concrete environments and component states *)

(** Only the two branch keys are set. *)
Definition branch_keys_only : gmap string string :=
  <["GEMINI_API_KEY" := "g-key"]> (<["OPENAI_API_KEY" := "o-key"]> ∅).

(** The OpenAI key is set but empty. *)
Definition empty_openai_key : gmap string string :=
  <["GEMINI_API_KEY" := "g-key"]>
    (<["OPENAI_API_KEY" := ""]> (<["ANTHROPIC_API_KEY" := "a-key"]> ∅)).

(** The user has typed a question, with spaces around it; one earlier
    message is on the page. *)
Definition typed : App.t :=
  App.mk "  Capital of France? "
    [Message.mk "1699999999999" "Hello?" None (Some "An error occurred") 0]
    false.

(** A request that fails with an error without a message. *)
Definition silent_failure (q : string) : Fetched :=
  fetch_throws (JsError "" None).

(** ** The runs of the services *)

Lemma branch_caller_run w b q :
  branch_caller b w q =
  mkPromise [Invoke (branch_agent b) q]
    match branch_result w b q with
    | fulfilled v => Fulfilled v
    | rejected e => Rejected e
    end.
Proof.
  destruct b; unfold branch_caller, queryGemini, queryOpenAI, branch_result;
    simpl; unfold mbind, Promise_bind, await, try_catch, invoke; simpl;
    destruct (remote w _ q); reflexivity.
Qed.

Lemma settlement_branch w b q i :
  settlement i (branch_caller b w q) = [(i, branch_result w b q)].
Proof.
  rewrite branch_caller_run. unfold settlement; simpl.
  destruct (branch_result w b q); reflexivity.
Qed.

Lemma allSettled_two {A} o (pA pB : Promise A) rA rB :
  settlement 0 pA = [(0%nat, rA)] →
  settlement 1 pB = [(1%nat, rB)] →
  allSettled (arrival_of o) [pA; pB] =
  mkPromise (issued pA ++ issued pB) (Fulfilled [rA; rB]).
Proof.
  intros HA HB. unfold allSettled, settlements.
  destruct o; simpl; rewrite HA, HB; simpl; rewrite app_nil_r; reflexivity.
Qed.

Lemma runParallelAgents_run w state :
  runParallelAgents w state =
  mkPromise [Invoke Gemini (question state); Invoke OpenAI (question state)]
    (Fulfilled
       (process_openai (branch_result w BranchB (question state))
          (process_gemini (branch_result w BranchA (question state)) state))).
Proof.
  unfold runParallelAgents, runParallelAgents_with.
  change (queryGemini w) with (branch_caller BranchA w).
  change (queryOpenAI w) with (branch_caller BranchB w).
  rewrite (allSettled_two _ _ _ _ _
             (settlement_branch w BranchA _ 0)
             (settlement_branch w BranchB _ 1)).
  rewrite !branch_caller_run. reflexivity.
Qed.

Lemma synthesizeResponses_run w input :
  synthesizeResponses w input =
  mkPromise [Invoke Claude (buildSynthesisPrompt input)]
    match remote w Claude (buildSynthesisPrompt input) with
    | inr reply =>
        Fulfilled
          (SynthesisOutput.mk (Parsed.finalAnswer (parseClaudeResponse reply))
             (Parsed.reasoning (parseClaudeResponse reply)) (elapsed w Claude))
    | inl e => Rejected (synthesis_error w e)
    end.
Proof.
  unfold synthesizeResponses, mbind, Promise_bind, await, try_catch, invoke.
  simpl. destruct (remote w Claude _); reflexivity.
Qed.

Lemma executeAgentWorkflow_run w q :
  executeAgentWorkflow w q =
  mkPromise
    [Invoke Gemini q; Invoke OpenAI q; Invoke Claude (workflow_prompt w q)]
    match remote w Claude (workflow_prompt w q) with
    | inr reply => Fulfilled (final_state w q reply)
    | inl e => Rejected (synthesis_error w e)
    end.
Proof.
  unfold executeAgentWorkflow.
  rewrite runParallelAgents_run. simpl question.
  fold (state_after_agents w q).
  unfold mbind, Promise_bind, await at 1. simpl outcome. simpl issued.
  unfold await at 1, runClaudeSynthesis.
  unfold mbind, Promise_bind, await.
  rewrite synthesizeResponses_run.
  fold (synthesis_input (state_after_agents w q)).
  fold (workflow_prompt w q).
  unfold try_catch. simpl.
  destruct (remote w Claude (workflow_prompt w q)); reflexivity.
Qed.

Lemma askQuestion_run w question s :
  accepted question = Some s →
  askQuestion w question =
  mkPromise
    [Invoke Gemini (trim s); Invoke OpenAI (trim s);
     Invoke Claude (workflow_prompt w (trim s))]
    (Fulfilled
       match remote w Claude (workflow_prompt w (trim s)) with
       | inr reply =>
           mkReply 200 (formatSuccessResponse (final_state w (trim s) reply))
       | inl e => mkReply 500 (formatErrorResponse (synthesis_error w e))
       end).
Proof.
  intros Hq. destruct question as [| | | | s' |]; try discriminate Hq.
  simpl in Hq. destruct (is_empty (trim s')) eqn:Ht; [discriminate|].
  injection Hq as ->.
  assert (Hs : is_empty s = false)
    by (destruct s; [discriminate Ht | reflexivity]).
  unfold askQuestion. simpl. rewrite Hs, Ht. simpl.
  unfold mbind, Promise_bind, await. rewrite executeAgentWorkflow_run.
  unfold try_catch. simpl.
  destruct (remote w Claude (workflow_prompt w (trim s))); reflexivity.
Qed.

Lemma validation_invalid question :
  invalid_question question →
  negb (to_boolean question) || negb (typeof_string question)
  || trims_to_empty question = true.
Proof.
  destruct question as [| | [] | n | s |]; simpl; trivial.
  - destruct (n =? 0); reflexivity.
  - intros ->. apply orb_true_r.
Qed.

(** Every request is either invalid or accepted. *)
Lemma accepted_or_invalid question :
  invalid_question question ∨ ∃ s, accepted question = Some s.
Proof.
  destruct question as [| | | | s |]; simpl; auto.
  destruct (is_empty (trim s)) eqn:E; [left | right; eauto].
  destruct (trim s); [reflexivity | discriminate E].
Qed.

(** ** The synthesis call of a workflow *)

Lemma claude_invocation w q prompt :
  Invoke Claude prompt ∈ issued (executeAgentWorkflow w q) ↔
  prompt = workflow_prompt w q.
Proof.
  rewrite executeAgentWorkflow_run. simpl.
  rewrite !elem_of_cons, elem_of_nil. split.
  - intros [H|[H|[H|[]]]]; congruence.
  - intros ->. auto.
Qed.

Lemma synthesis_succeeds_iff w q :
  synthesis_succeeds w q ↔
  ∃ reply, remote w Claude (workflow_prompt w q) = inr reply.
Proof.
  split.
  - intros (prompt & reply & ->%claude_invocation & H). eauto.
  - intros [reply H]. exists (workflow_prompt w q), reply.
    split; [apply claude_invocation; reflexivity | exact H].
Qed.

Lemma synthesis_fails_iff w q :
  synthesis_fails w q ↔ ∃ e, remote w Claude (workflow_prompt w q) = inl e.
Proof.
  split.
  - intros (prompt & e & ->%claude_invocation & H). eauto.
  - intros [e H]. exists (workflow_prompt w q), e.
    split; [apply claude_invocation; reflexivity | exact H].
Qed.

Lemma synthesis_succeeds_here w q reply :
  remote w Claude (workflow_prompt w q) = inr reply → synthesis_succeeds w q.
Proof. intros H. apply synthesis_succeeds_iff. eauto. Qed.

Lemma synthesis_fails_here w q e :
  remote w Claude (workflow_prompt w q) = inl e → synthesis_fails w q.
Proof. intros H. apply synthesis_fails_iff. eauto. Qed.

(** ** The fields of a branch, in the state and in the response *)

Lemma if_zero n : (if n =? 0 then 0 else n) = n.
Proof. destruct (Z.eqb_spec n 0); congruence. Qed.

Lemma or_zero_Some n : or_zero (Some n) = n.
Proof. apply if_zero. Qed.

Lemma or_string_default_empty s : or_string (Some s) "" = s.
Proof. destruct s; reflexivity. Qed.

Lemma truthy_wrapper_message b :
  truthy (Some (wrapper_message b)) = Some (wrapper_message b).
Proof. destruct b; reflexivity. Qed.

Lemma branch_fields w q b :
  let st := state_after_agents w q in
  match remote w (branch_agent b) q with
  | inr text =>
      state_response b st = Some text ∧ state_error b st = None ∧
      state_time b st = Some (elapsed w (branch_agent b))
  | inl _ =>
      state_response b st = None ∧
      state_error b st = Some (wrapper_message b) ∧
      state_time b st = None
  end.
Proof.
  unfold state_after_agents, branch_result.
  destruct b; simpl;
    destruct (remote w Gemini q), (remote w OpenAI q); simpl; auto.
Qed.

Lemma final_state_fields w q reply b :
  state_response b (final_state w q reply)
    = state_response b (state_after_agents w q) ∧
  state_error b (final_state w q reply)
    = state_error b (state_after_agents w q) ∧
  state_time b (final_state w q reply)
    = state_time b (state_after_agents w q).
Proof. destruct b; auto. Qed.

Lemma reported_fields st :
  ∃ d, formatSuccessResponse st = ChatResponse.mk true (Some d) None None ∧
       ChatResponseData.totalProcessingTime d
         = Metadata.totalTime (metadata st) ∧
       ∀ b, reported b d =
            AgentResponse.mk (or_string (state_response b st) "")
              (or_zero (state_time b st)) (truthy (state_error b st)).
Proof.
  eexists. split; [reflexivity|]. split; [reflexivity|].
  intros []; reflexivity.
Qed.

(** A workflow whose synthesis call succeeds completes, and the controller
    answers with the formatted final state. *)
Lemma completed_workflow w q :
  synthesis_succeeds w q →
  ∃ reply,
    remote w Claude (workflow_prompt w q) = inr reply ∧
    outcome (executeAgentWorkflow w q) = Fulfilled (final_state w q reply) ∧
    answers w q 200 (formatSuccessResponse (final_state w q reply)).
Proof.
  intros [reply H]%synthesis_succeeds_iff. exists reply.
  split; [exact H|]. split.
  - rewrite executeAgentWorkflow_run. simpl. rewrite H. reflexivity.
  - intros question s Hq <-. rewrite (askQuestion_run _ _ _ Hq). simpl.
    rewrite H. reflexivity.
Qed.

Lemma reported_branch w q reply b :
  ∃ d,
    formatSuccessResponse (final_state w q reply)
      = ChatResponse.mk true (Some d) None None ∧
    reported b d =
      match remote w (branch_agent b) q with
      | inr text => AgentResponse.mk text (elapsed w (branch_agent b)) None
      | inl _ => AgentResponse.mk "" 0 (Some (wrapper_message b))
      end.
Proof.
  destruct (reported_fields (final_state w q reply)) as (d & Hd & _ & Hr).
  exists d. split; [exact Hd|]. rewrite Hr.
  destruct (final_state_fields w q reply b) as (-> & -> & ->).
  pose proof (branch_fields w q b) as Hb. simpl in Hb.
  destruct (remote w (branch_agent b) q); destruct Hb as (-> & -> & ->).
  - rewrite truthy_wrapper_message. reflexivity.
  - rewrite or_string_default_empty, or_zero_Some. reflexivity.
Qed.

Lemma fan_out_error w b state :
  branch_fails w b (question state) →
  state_error b
    (process_openai (branch_result w BranchB (question state))
       (process_gemini (branch_result w BranchA (question state)) state))
  = Some (wrapper_message b).
Proof.
  intros [e He]. unfold branch_result.
  destruct b; cbn [branch_agent] in *; rewrite He.
  - destruct (remote w OpenAI _); reflexivity.
  - destruct (remote w Gemini _); reflexivity.
Qed.

(** ** The joint promise of [Promise.allSettled] *)

Lemma join_remaining {A} (evs : list (nat * SettledResult A)) j :
  remainingElementsCount (foldl join_settle j evs)
  = (remainingElementsCount j - length evs)%nat.
Proof.
  revert j. induction evs as [|ev evs IH]; intros j; simpl.
  - lia.
  - rewrite IH. simpl. lia.
Qed.

(** While fewer settlements have arrived than there are elements, the joint
    promise is pending. *)
Lemma join_pending {A} n (evs : list (nat * SettledResult A)) :
  (length evs < n)%nat →
  join_resolved (foldl join_settle (join_init n) evs) = None.
Proof.
  intros H. unfold join_resolved. rewrite join_remaining. simpl.
  destruct (n - length evs)%nat eqn:E; [lia | reflexivity].
Qed.

Lemma settlements_length {A} arrival (ps : list (Promise A)) :
  (length (settlements arrival ps) ≤ length arrival)%nat.
Proof.
  unfold settlements. induction arrival as [|i arrival IH]; [reflexivity|].
  rewrite bind_cons, length_app. simpl.
  assert (length match ps !! i with
                 | Some p => settlement i p
                 | None => []
                 end ≤ 1)%nat; [|lia].
  destruct (ps !! i) as [p|]; [|simpl; lia].
  unfold settlement. destruct (outcome p); simpl; lia.
Qed.

(** While fewer settlements have arrived than there are promises, the wait
    is not over. *)
Lemma allSettled_pending {A} arrival (ps : list (Promise A)) :
  (length arrival < length ps)%nat →
  allSettled arrival ps = mkPromise (ps ≫= issued) Pending.
Proof.
  intros H. unfold allSettled. rewrite join_pending; [reflexivity|].
  pose proof (settlements_length arrival ps). lia.
Qed.

(** ** Strings *)

Lemma app_cons c s t : String c s +:+ t = String c (s +:+ t).
Proof. reflexivity. Qed.

Lemma app_empty_l s : "" +:+ s = s.
Proof. reflexivity. Qed.

Lemma app_assoc' (a b c : string) : (a +:+ b) +:+ c = a +:+ (b +:+ c).
Proof.
  induction a as [|x a IH]; [reflexivity|].
  rewrite !app_cons, IH. reflexivity.
Qed.

Lemma trimStart_app r t :
  trimStart r ≠ "" → trimStart (r +:+ t) = trimStart r +:+ t.
Proof.
  induction r as [|c r IH]; simpl; [congruence|].
  destruct (is_space c); [exact IH | reflexivity].
Qed.

Lemma trimStart_idem s : trimStart (trimStart s) = trimStart s.
Proof.
  induction s as [|c s IH]; simpl; [reflexivity|].
  destruct (is_space c) eqn:E; [exact IH|]. simpl. rewrite E. reflexivity.
Qed.

Lemma trimEnd_LF_LF s : trimEnd (s +:+ LF +:+ LF) = trimEnd s.
Proof.
  induction s as [|c s IH]; [reflexivity|].
  rewrite app_cons. simpl. rewrite IH. reflexivity.
Qed.

Lemma trimEnd_nonempty s : trimEnd (trimStart s) ≠ "" → trimStart s ≠ "".
Proof. intros H E. rewrite E in H. apply H. reflexivity. Qed.

Lemma or_string_nonempty s d : s ≠ "" → or_string (Some s) d = s.
Proof. destruct s; [congruence|reflexivity]. Qed.

Lemma starts_with_app p t : starts_with p (p +:+ t) = true.
Proof.
  induction p as [|c p IH]; [reflexivity|].
  change (bool_decide (c = c) && starts_with p (p +:+ t) = true).
  rewrite IH, bool_decide_eq_true_2; reflexivity.
Qed.

Lemma includes_here s p : starts_with p s = true → includes s p = true.
Proof. intros H. destruct s; simpl; rewrite H; reflexivity. Qed.

Lemma includes_app pre sec post : includes (pre +:+ sec +:+ post) sec = true.
Proof.
  induction pre as [|c pre IH].
  - apply includes_here. exact (starts_with_app sec post).
  - change (starts_with sec (String c (pre +:+ sec +:+ post))
            || includes (pre +:+ sec +:+ post) sec = true).
    rewrite IH. apply orb_true_r.
Qed.

(** ** The matcher *)

Lemma star_space_trimStart {A} (k : string → option A) s v :
  k (trimStart s) = Some v → star_space k s = Some v.
Proof.
  induction s as [|c s IH]; simpl; [trivial|].
  destruct (is_space c); [|trivial].
  intros H. rewrite (IH H). reflexivity.
Qed.

Lemma lazy_any_at_end s : lazy_any at_end s = Some (s, ()).
Proof.
  induction s as [|c s IH]; [reflexivity|].
  simpl. rewrite IH. reflexivity.
Qed.

Lemma no_match_before_app {A} (m : string → option A) p1 p2 rest :
  no_match_before m p1 (p2 +:+ rest) → no_match_before m p2 rest →
  no_match_before m (p1 +:+ p2) rest.
Proof.
  intros H1 H2. induction p1 as [|c p1 IH]; [exact H2|].
  destruct H1 as [H1 H1']. split; [|exact (IH H1')].
  change (m (String c ((p1 +:+ p2) +:+ rest)) = None).
  rewrite app_assoc'. exact H1.
Qed.

Lemma no_match_before_mono {A B} (f : string → option A)
    (g : string → option B) pre rest :
  (∀ y, y ≠ "" → f y = None → g y = None) →
  no_match_before f pre rest → no_match_before g pre rest.
Proof.
  intros Hfg. induction pre as [|c pre IH]; [trivial|].
  intros [H H']. split; [|exact (IH H')].
  apply Hfg; [|exact H]. rewrite app_cons. discriminate.
Qed.

Lemma search_skip {A} (m : string → option A) pre rest :
  no_match_before m pre rest → search m (pre +:+ rest) = search m rest.
Proof.
  induction pre as [|c pre IH]; [reflexivity|].
  intros [H H']. rewrite app_cons in *. simpl. rewrite H. exact (IH H').
Qed.

Lemma lazy_any_skip {A} (k : string → option A) body rest v :
  no_match_before k body rest → k rest = Some v →
  lazy_any k (body +:+ rest) = Some (body, v).
Proof.
  intros Hb Hk. induction body as [|c body IH].
  - rewrite app_empty_l. destruct rest; simpl; rewrite Hk; reflexivity.
  - destruct Hb as [H H']. rewrite app_cons in *. simpl.
    rewrite H, (IH H'). reflexivity.
Qed.

Lemma search_None_inv {A} (m : string → option A) c s :
  search m (String c s) = None → m (String c s) = None ∧ search m s = None.
Proof. simpl. destruct (m (String c s)); [discriminate|auto]. Qed.

Lemma search_None_mono {A B} (f : string → option A)
    (g : string → option B) s :
  (∀ y, f y = None → g y = None) →
  search f s = None → search g s = None.
Proof.
  intros Hfg. induction s as [|c s IH].
  - simpl. destruct (f "") eqn:E; [discriminate|].
    rewrite (Hfg _ E). reflexivity.
  - intros [H H']%search_None_inv. simpl. rewrite (Hfg _ H). exact (IH H').
Qed.

Lemma search_None_trimStart {A} (m : string → option A) s :
  search m s = None → search m (trimStart s) = None.
Proof.
  induction s as [|c s IH]; [trivial|].
  intros H. simpl. destruct (is_space c); [|exact H].
  apply IH. apply search_None_inv in H. tauto.
Qed.

Lemma lit_ci_app_LF p y rest :
  free_of_LF p = true → lit_ci p y = None →
  lit_ci p (y +:+ LF +:+ rest) = None.
Proof.
  revert y. induction p as [|pc p IH]; intros y Hp H; [discriminate|].
  simpl in Hp. apply andb_prop in Hp as [Hc Hp].
  destruct y as [|c y].
  - apply negb_true_iff in Hc.
    change (lit_ci (String pc p) (String "010" rest) = None).
    simpl. rewrite Hc. reflexivity.
  - change (lit_ci (String pc p) (String c (y +:+ LF +:+ rest)) = None).
    simpl in *. destruct (ci_eqb pc c); [|reflexivity].
    apply IH; assumption.
Qed.

Lemma no_occurrence_before p r rest :
  free_of_LF p = true → search (lit_ci p) r = None →
  no_match_before (lit_ci p) r (LF +:+ rest).
Proof.
  intros Hp. induction r as [|c r IH]; [intros _; exact I|].
  intros [H H']%search_None_inv. split; [|exact (IH H')].
  apply (lit_ci_app_LF p (String c r)); assumption.
Qed.

Lemma occurs_ci_false p s :
  occurs_ci p s = false ↔ search (lit_ci p) s = None.
Proof.
  unfold occurs_ci. rewrite bool_decide_eq_false, <- eq_None_not_Some.
  reflexivity.
Qed.

(** ** The parser of the synthesis reply *)

Lemma ahead_None p y :
  y ≠ "" → lit_ci p y = None → ahead_lit_or_end p y = None.
Proof.
  intros Hy H. unfold ahead_lit_or_end. rewrite H.
  destruct y; [congruence|reflexivity].
Qed.

Lemma reasoning_re_None y :
  lit_ci "REASONING:" y = None → reasoning_re y = None.
Proof. intros H. unfold reasoning_re. rewrite H. reflexivity. Qed.

Lemma finalAnswer_re_None y :
  lit_ci "FINAL ANSWER:" y = None → finalAnswer_re y = None.
Proof. intros H. unfold finalAnswer_re. rewrite H. reflexivity. Qed.

Lemma reasoning_structured r a :
  search (lit_ci "FINAL ANSWER:") r = None → trimStart r ≠ "" →
  search reasoning_re (structured_reply r a) =
  Some (trimStart r +:+ LF +:+ LF).
Proof.
  intros Hr Hne.
  set (rest := "FINAL ANSWER:" +:+ LF +:+ a).
  assert (Hk : lazy_any (ahead_lit_or_end "FINAL ANSWER:")
                 ((trimStart r +:+ LF +:+ LF) +:+ rest)
               = Some (trimStart r +:+ LF +:+ LF, ())).
  { apply lazy_any_skip; [|reflexivity].
    apply no_match_before_app.
    - apply (no_match_before_mono (lit_ci "FINAL ANSWER:")).
      + intros y Hy. apply ahead_None, Hy.
      + rewrite app_assoc'. apply no_occurrence_before; [reflexivity|].
        apply search_None_trimStart, Hr.
    - repeat split. }
  rewrite !app_assoc' in Hk.
  assert (Hs : star_space (lazy_any (ahead_lit_or_end "FINAL ANSWER:"))
                 (LF +:+ r +:+ LF +:+ LF +:+ rest)
               = Some (trimStart r +:+ LF +:+ LF, ())).
  { apply star_space_trimStart.
    change (trimStart (LF +:+ r +:+ LF +:+ LF +:+ rest))
      with (trimStart (r +:+ LF +:+ LF +:+ rest)).
    rewrite trimStart_app by exact Hne. exact Hk. }
  unfold structured_reply. fold rest.
  set (tail := LF +:+ r +:+ LF +:+ LF +:+ rest) in *.
  change (search reasoning_re ("REASONING:" +:+ tail))
    with (match reasoning_re ("REASONING:" +:+ tail) with
          | Some x => Some x
          | None => search reasoning_re ("EASONING:" +:+ tail)
          end).
  change (reasoning_re ("REASONING:" +:+ tail))
    with (fst <$> star_space (lazy_any (ahead_lit_or_end "FINAL ANSWER:"))
                    tail).
  rewrite Hs. reflexivity.
Qed.

Lemma finalAnswer_structured r a :
  search (lit_ci "FINAL ANSWER:") r = None →
  search finalAnswer_re (structured_reply r a) = Some (trimStart a).
Proof.
  intros Hr.
  set (rest := "FINAL ANSWER:" +:+ LF +:+ a).
  assert (Hpre : no_match_before finalAnswer_re
                   (("REASONING:" +:+ LF) +:+ r +:+ LF +:+ LF) rest).
  { apply no_match_before_app; [repeat split|].
    apply no_match_before_app; [|repeat split].
    apply (no_match_before_mono (lit_ci "FINAL ANSWER:")).
    - intros y _. apply finalAnswer_re_None.
    - rewrite app_assoc'. apply no_occurrence_before; [reflexivity|exact Hr]. }
  apply search_skip in Hpre. rewrite !app_assoc' in Hpre.
  unfold structured_reply. fold rest.
  rewrite Hpre.
  change (search finalAnswer_re rest)
    with (match fst <$> star_space (lazy_any at_end) (LF +:+ a) with
          | Some x => Some x
          | None => search finalAnswer_re ("INAL ANSWER:" +:+ LF +:+ a)
          end).
  rewrite (star_space_trimStart _ _ (trimStart a, ())); [reflexivity|].
  change (trimStart (LF +:+ a)) with (trimStart a).
  apply lazy_any_at_end.
Qed.

Lemma parse_structured r a :
  occurs_ci "FINAL ANSWER:" r = false → trim r ≠ "" → trim a ≠ "" →
  parseClaudeResponse (structured_reply r a) = Parsed.mk (trim a) (trim r).
Proof.
  intros Hr%occurs_ci_false Hrne Hane.
  unfold parseClaudeResponse.
  rewrite (reasoning_structured r a Hr (trimEnd_nonempty r Hrne)).
  rewrite (finalAnswer_structured r a Hr). simpl fmap.
  assert (Er : trim (trimStart r +:+ LF +:+ LF) = trim r).
  { unfold trim. rewrite trimStart_app; rewrite trimStart_idem.
    - apply trimEnd_LF_LF.
    - apply trimEnd_nonempty, Hrne. }
  assert (Ea : trim (trimStart a) = trim a).
  { unfold trim. rewrite trimStart_idem. reflexivity. }
  rewrite Er, Ea, !or_string_nonempty by assumption. reflexivity.
Qed.

Lemma parse_unmarked reply :
  occurs_ci "REASONING:" reply = false →
  occurs_ci "FINAL ANSWER:" reply = false →
  parseClaudeResponse reply = Parsed.mk (trim reply) "No reasoning provided".
Proof.
  intros Hr%occurs_ci_false Hf%occurs_ci_false.
  unfold parseClaudeResponse.
  rewrite (search_None_mono _ reasoning_re _ reasoning_re_None Hr).
  rewrite (search_None_mono _ finalAnswer_re _ finalAnswer_re_None Hf).
  reflexivity.
Qed.

(** ** The prompt of the synthesis *)

Lemma buildSynthesisPrompt_sections st :
  buildSynthesisPrompt (synthesis_input st) =
  prompt_head (question st)
  +:+ branch_section "Gemini" (geminiResponse st) (geminiError st)
  +:+ branch_section "OpenAI" (openaiResponse st) (openaiError st)
  +:+ prompt_task.
Proof.
  unfold buildSynthesisPrompt, synthesis_input.
  cbn [SynthesisInput.question SynthesisInput.geminiResponse
       SynthesisInput.geminiError SynthesisInput.openaiResponse
       SynthesisInput.openaiError].
  rewrite !app_assoc'. reflexivity.
Qed.

Lemma branch_section_expected w q b :
  remote w (branch_agent b) q ≠ inr "" →
  branch_section (branch_name b)
    (state_response b (state_after_agents w q))
    (state_error b (state_after_agents w q))
  = expected_section w b q.
Proof.
  intros Hne. pose proof (branch_fields w q b) as Hf. simpl in Hf.
  unfold expected_section, branch_section.
  destruct (remote w (branch_agent b) q) as [e|text];
    destruct Hf as (-> & -> & _).
  - rewrite truthy_wrapper_message. reflexivity.
  - destruct text; [congruence|reflexivity].
Qed.

(** ** The properties of the specification *)

(** The end-to-end scenario of the specification: the branches answer in
    100 ms and 150 ms, the synthesis in 50 ms. *)
Example paris_end_to_end :
  askQuestion paris (JsString "What is the capital of France?") =
  mkPromise
    [Invoke Gemini "What is the capital of France?";
     Invoke OpenAI "What is the capital of France?";
     Invoke Claude (workflow_prompt paris "What is the capital of France?")]
    (Fulfilled
       (mkReply 200
          (ChatResponse.mk true
             (Some
                (ChatResponseData.mk "What is the capital of France?"
                   (Agents.mk (AgentResponse.mk "Paris" 100 None)
                      (AgentResponse.mk "Paris, France" 150 None)
                      (ClaudeResponse.mk "Paris." "Both agree." 50))
                   300))
             None None))).
Proof. vm_compute. reflexivity. Qed.

(** C1: whenever the synthesis call succeeds -- in particular when exactly
    one branch has failed -- the workflow completes and the response has
    [success = true]; in it the error field of a branch is present exactly
    when the remote call of that branch failed, and then its response text
    is empty, while a branch that succeeded has its text and no error field;
    an error and a text are never both present. *)
Theorem partial_failure_is_reported (w : World) (q : string) :
  synthesis_succeeds w q →
  ∃ st d,
    outcome (executeAgentWorkflow w q) = Fulfilled st ∧
    answers w q 200 (formatSuccessResponse st) ∧
    formatSuccessResponse st = ChatResponse.mk true (Some d) None None ∧
    ∀ b, reported_consistently w b q (reported b d).
Proof.
  intros (reply & _ & Hrun & Hans)%completed_workflow.
  destruct (reported_fields (final_state w q reply)) as (d & Hd & _).
  exists (final_state w q reply), d.
  split; [exact Hrun|]. split; [exact Hans|]. split; [exact Hd|].
  intros b. destruct (reported_branch w q reply b) as (d' & Hd' & Hb).
  assert (d' = d) as -> by congruence.
  unfold reported_consistently, branch_fails. rewrite Hb.
  destruct (remote w (branch_agent b) q) as [e|text]; simpl.
  - split; [split; eauto|]. split; [reflexivity|].
    split; [discriminate|]. intros [_ H]. congruence.
  - split; [split; [intros [? [=]] | intros [? [=]]]|].
    split; [intros [? [=]]|].
    split; [intros ? [= ->]; auto|]. intros [[? [=]] _].
Qed.

(** The theorem at the request [gemini_down], in which exactly one branch
    fails. *)
Lemma partial_failure_is_reported_witness :
  branch_fails gemini_down BranchA "Capital of France?" ∧
  ¬ branch_fails gemini_down BranchB "Capital of France?" ∧
  ∃ st d,
    outcome (executeAgentWorkflow gemini_down "Capital of France?")
      = Fulfilled st ∧
    answers gemini_down "Capital of France?" 200 (formatSuccessResponse st) ∧
    formatSuccessResponse st = ChatResponse.mk true (Some d) None None ∧
    ∀ b, reported_consistently gemini_down b "Capital of France?"
           (reported b d).
Proof.
  split; [eexists; reflexivity|]. split; [intros [e He]; discriminate He|].
  apply (partial_failure_is_reported gemini_down "Capital of France?").
  apply (synthesis_succeeds_here _ _ paris_reply). reflexivity.
Defined.

(** C2: when both branches and the synthesis succeed, the reported
    [totalProcessingTime] is the elapsed time of the Gemini call plus the
    elapsed time of the OpenAI call plus the elapsed time of the synthesis
    call, each counted once: it is the sum of the three processing times
    reported. *)
Theorem total_time_is_the_sum (w : World) (q textA textB : string) :
  remote w Gemini q = inr textA →
  remote w OpenAI q = inr textB →
  synthesis_succeeds w q →
  ∃ st d,
    outcome (executeAgentWorkflow w q) = Fulfilled st ∧
    answers w q 200 (formatSuccessResponse st) ∧
    formatSuccessResponse st = ChatResponse.mk true (Some d) None None ∧
    ChatResponseData.totalProcessingTime d
      = elapsed w Gemini + elapsed w OpenAI + elapsed w Claude ∧
    AgentResponse.processingTime (reported BranchA d) = elapsed w Gemini ∧
    AgentResponse.processingTime (reported BranchB d) = elapsed w OpenAI ∧
    ClaudeResponse.processingTime (Agents.claude (ChatResponseData.agents d))
      = elapsed w Claude.
Proof.
  intros HA HB (reply & _ & Hrun & Hans)%completed_workflow.
  exists (final_state w q reply). eexists.
  split; [exact Hrun|]. split; [exact Hans|]. split; [reflexivity|].
  unfold final_state, state_after_agents, branch_result. simpl.
  rewrite HA, HB. simpl.
  rewrite !if_zero. auto.
Qed.

(** The theorem at the end-to-end scenario: 100 + 150 + 50 ms. *)
Lemma total_time_is_the_sum_witness :
  ∃ st d,
    outcome (executeAgentWorkflow paris "What is the capital of France?")
      = Fulfilled st ∧
    answers paris "What is the capital of France?" 200
      (formatSuccessResponse st) ∧
    formatSuccessResponse st = ChatResponse.mk true (Some d) None None ∧
    ChatResponseData.totalProcessingTime d
      = elapsed paris Gemini + elapsed paris OpenAI + elapsed paris Claude ∧
    AgentResponse.processingTime (reported BranchA d) = elapsed paris Gemini ∧
    AgentResponse.processingTime (reported BranchB d) = elapsed paris OpenAI ∧
    ClaudeResponse.processingTime (Agents.claude (ChatResponseData.agents d))
      = elapsed paris Claude.
Proof.
  apply (total_time_is_the_sum paris "What is the capital of France?"
           "Paris" "Paris, France"); [reflexivity | reflexivity |].
  apply (synthesis_succeeds_here _ _ paris_reply). reflexivity.
Defined.

Lemma join_values_length {A} (evs : list (nat * SettledResult A)) j :
  length (values (foldl join_settle j evs)) = length (values j).
Proof.
  revert j. induction evs as [|ev evs IH]; intros j; [reflexivity|].
  simpl. rewrite IH. simpl. apply length_insert.
Qed.

(** A slot is filled only by a settlement with its index. *)
Lemma join_slot_filled {A} (evs : list (nat * SettledResult A)) j i r :
  values (foldl join_settle j evs) !! i = Some (Some r) →
  values j !! i = Some (Some r) ∨ (i, r) ∈ evs.
Proof.
  revert j. induction evs as [|[k x] evs IH]; intros j H; [left; exact H|].
  simpl in H. apply IH in H as [H|H]; [|right; right; exact H].
  simpl in H. apply list_lookup_insert_Some in H as [(<- & [= <-] & _)|[_ H]].
  - right. left.
  - left. exact H.
Qed.

(** When the wait of [Promise.allSettled] is over, there is a result for
    every promise, and the result in a slot is a settlement that has
    arrived for that slot. *)
Lemma allSettled_resolved {A} arrival (ps : list (Promise A)) results :
  outcome (allSettled arrival ps) = Fulfilled results →
  length results = length ps ∧
  ∀ i r, results !! i = Some r → (i, r) ∈ settlements arrival ps.
Proof.
  unfold allSettled. simpl.
  destruct (join_resolved _) as [rs|] eqn:E; [|discriminate].
  intros [= ->]. unfold join_resolved in E.
  destruct (remainingElementsCount _); [|discriminate].
  apply mapM_Some in E. split.
  - rewrite <- (Forall2_length _ _ _ E), join_values_length. simpl.
    apply length_replicate.
  - intros i r Hi.
    destruct (Forall2_lookup_r _ _ _ _ _ E Hi) as (x & Hx & Hid).
    simpl in Hid. subst x.
    apply join_slot_filled in Hx as [Hx|Hx]; [|exact Hx].
    simpl in Hx. apply lookup_replicate in Hx as [[=] _].
Qed.

Lemma settlements_elem {A} arrival (ps : list (Promise A)) i r :
  (i, r) ∈ settlements arrival ps →
  i ∈ arrival ∧ ∃ p, ps !! i = Some p ∧ (i, r) ∈ settlement i p.
Proof.
  unfold settlements. intros (k & H & Hk)%list_elem_of_bind.
  destruct (ps !! k) as [p|] eqn:Ep; [|apply elem_of_nil in H as []].
  assert (k = i) as ->.
  { unfold settlement in H. destruct (outcome p);
      [apply elem_of_nil in H as []| |];
      apply list_elem_of_singleton in H; congruence. }
  split; [exact Hk|]. eauto.
Qed.

(** The fan-out under any arrivals: both calls are issued; it is pending, or
    both settlements have arrived and the state is built from the result
    of Gemini for the first slot and the result of OpenAI for the second. *)
Lemma runParallelAgents_with_run arrival w state :
  let q := question state in
  issued (runParallelAgents_with arrival w state)
    = [Invoke Gemini q; Invoke OpenAI q] ∧
  (outcome (runParallelAgents_with arrival w state) = Pending ∨
   (outcome (runParallelAgents_with arrival w state)
      = Fulfilled
          (process_openai (branch_result w BranchB q)
             (process_gemini (branch_result w BranchA q) state)) ∧
    0%nat ∈ arrival ∧ 1%nat ∈ arrival)).
Proof.
  intros q. unfold runParallelAgents_with.
  change (queryGemini w) with (branch_caller BranchA w).
  change (queryOpenAI w) with (branch_caller BranchB w).
  fold q.
  set (ps := [branch_caller BranchA w q; branch_caller BranchB w q]).
  assert (Hi : issued (allSettled arrival ps)
               = [Invoke Gemini q; Invoke OpenAI q]).
  { change (issued (allSettled arrival ps))
      with (issued (branch_caller BranchA w q)
              ++ issued (branch_caller BranchB w q) ++ []).
    rewrite !branch_caller_run. reflexivity. }
  assert (E : ∃ out, outcome (allSettled arrival ps) = out) by eauto.
  destruct E as [out E].
  destruct (allSettled arrival ps) as [calls out'] eqn:EP.
  simpl in Hi, E. subst calls out'.
  unfold mbind, Promise_bind, await. cbn [outcome issued].
  destruct out as [|results|e].
  - split; [reflexivity | left; reflexivity].
  - assert (E : outcome (allSettled arrival ps) = Fulfilled results)
      by (rewrite EP; reflexivity).
    destruct (allSettled_resolved _ _ _ E) as [Hlen Hres].
    destruct results as [|r0 [|r1 [|]]]; try discriminate Hlen.
    destruct (settlements_elem _ _ _ _ (Hres 0%nat r0 eq_refl))
      as (H0 & p0 & [= <-] & Hr0).
    destruct (settlements_elem _ _ _ _ (Hres 1%nat r1 eq_refl))
      as (H1 & p1 & [= <-] & Hr1).
    change ((0%nat, r0) ∈ settlement 0 (branch_caller BranchA w q)) in Hr0.
    change ((1%nat, r1) ∈ settlement 1 (branch_caller BranchB w q)) in Hr1.
    rewrite settlement_branch in Hr0, Hr1.
    apply list_elem_of_singleton in Hr0, Hr1.
    injection Hr0 as ->. injection Hr1 as ->.
    split; [reflexivity|]. right. auto.
  - exfalso. apply (f_equal outcome) in EP. unfold allSettled in EP.
    simpl in EP. destruct (join_resolved _); discriminate EP.
Qed.

Lemma slots_after_fan_out w state b :
  slot_holds w b (question state) state
    (process_openai (branch_result w BranchB (question state))
       (process_gemini (branch_result w BranchA (question state)) state)).
Proof.
  unfold slot_holds, branch_result.
  destruct b; cbn [branch_agent];
    destruct (remote w Gemini _), (remote w OpenAI _); simpl; auto.
Qed.

(** C3: the fan-out calls both branches, whatever arrives, and never
    throws.  It returns only after both branches have settled: whenever it
    is fulfilled, the settlement of Gemini and the settlement of OpenAI have
    both reached [Promise.allSettled] -- after the settlement of one branch
    alone, be it a fast failure, it is still waiting for the other.  The
    state it returns holds the outcome of Gemini in the Gemini slot and the
    outcome of OpenAI in the OpenAI slot, in whatever order the settlements
    arrive; the two orders of settlement give the same run. *)
Theorem fan_out_waits_for_both_and_keeps_slots (w : World)
    (state : AgentState.t) :
  let q := question state in
  (∀ arrival,
     issued (runParallelAgents_with arrival w state)
       = [Invoke Gemini q; Invoke OpenAI q] ∧
     (∀ e,
        outcome (runParallelAgents_with arrival w state) ≠ Rejected e) ∧
     (∀ st,
        outcome (runParallelAgents_with arrival w state) = Fulfilled st →
        0%nat ∈ arrival ∧ 1%nat ∈ arrival ∧
        ∀ b, slot_holds w b q state st)) ∧
  (∀ o, ∃ st,
     outcome (runParallelAgents (with_order o w) state) = Fulfilled st ∧
     ∀ b, slot_holds w b q state st) ∧
  runParallelAgents (with_order GeminiFirst w) state
    = runParallelAgents (with_order OpenAIFirst w) state.
Proof.
  intros q. subst q. split; [|split].
  - intros arrival.
    destruct (runParallelAgents_with_run arrival w state)
      as [Hi [Hp|(Hf & H0 & H1)]]; (split; [exact Hi|]).
    + rewrite Hp. split; [discriminate | intros st [=]].
    + rewrite Hf. split; [discriminate|].
      intros st [= <-]. split; [exact H0|]. split; [exact H1|].
      intros b. apply slots_after_fan_out.
  - intros o. rewrite runParallelAgents_run. eexists.
    split; [reflexivity|]. intros b. apply (slots_after_fan_out w state b).
  - rewrite !runParallelAgents_run. reflexivity.
Qed.

(** The theorem at the request [gemini_down]: after the fast failure of
    Gemini alone the fan-out is pending; when OpenAI settles first and
    Gemini second, the failure is in the Gemini slot and the text in the
    OpenAI slot. *)
Lemma fan_out_waits_for_both_and_keeps_slots_witness :
  outcome (runParallelAgents_with [0%nat] gemini_down
             (initialState "Capital of France?")) = Pending ∧
  ∃ st,
    outcome (runParallelAgents_with [1%nat; 0%nat] gemini_down
               (initialState "Capital of France?")) = Fulfilled st ∧
    geminiError st = Some "Failed to get response from Gemini" ∧
    geminiResponse st = None ∧
    openaiResponse st = Some "Paris, France" ∧
    openaiError st = None.
Proof.
  destruct (fan_out_waits_for_both_and_keeps_slots gemini_down
              (initialState "Capital of France?")) as (H & _ & _).
  split.
  - destruct (H [0%nat]) as (_ & _ & Hf).
    destruct (outcome _) as [|st|e] eqn:E; [reflexivity| |].
    + destruct (Hf st eq_refl) as (_ & H1 & _).
      apply list_elem_of_singleton in H1. discriminate H1.
    + vm_compute in E. discriminate E.
  - destruct (H [1%nat; 0%nat]) as (_ & _ & Hf).
    eexists. split; [vm_compute; reflexivity|].
    destruct (Hf _ eq_refl) as (_ & _ & Hs).
    pose proof (Hs BranchA) as (HA1 & HA2 & _).
    pose proof (Hs BranchB) as (HB1 & _ & HB3).
    auto.
Defined.

(** C4, as stated, fails: a branch caller does throw across its boundary.
    When the remote call of Gemini fails, the promise of [queryGemini] is
    rejected. *)
Lemma branch_caller_throws :
  outcome (queryGemini gemini_down "Capital of France?")
    = Rejected (AgentError "Failed to get response from Gemini" "Gemini"
                  (JsError "socket hang up" None) None) ∧
  ¬ (∀ w b q e, outcome (branch_caller b w q) ≠ Rejected e).
Proof.
  split; [reflexivity|].
  intros H. exact (H gemini_down BranchA "Capital of France?" _ eq_refl).
Qed.

(** C4, amended: a branch caller catches any failure of its remote call and
    throws, in its place, an [AgentError] with the fixed human-readable
    message of the caller, the name of the agent and the original error, so
    that its promise is rejected; it is fulfilled with the text and the
    elapsed time when the remote call succeeds.  The failure becomes a value
    in the fan-out step: [runParallelAgents] is always fulfilled, and records
    the message in the error field of the branch. *)
Theorem branch_failure_is_rethrown_and_recorded (w : World) (b : Branch)
    (state : AgentState.t) :
  outcome (branch_caller b w (question state)) =
    match remote w (branch_agent b) (question state) with
    | inr text =>
        Fulfilled (QueryResult.mk text (elapsed w (branch_agent b)))
    | inl e =>
        Rejected (AgentError (wrapper_message b) (branch_name b) e
                    (stackOf w (wrapper_message b)))
    end ∧
  ∃ st,
    outcome (runParallelAgents w state) = Fulfilled st ∧
    (branch_fails w b (question state) →
     state_error b st = Some (wrapper_message b)).
Proof.
  split.
  - rewrite branch_caller_run. unfold branch_result. simpl.
    destruct (remote w _ _); reflexivity.
  - rewrite runParallelAgents_run. eexists. split; [reflexivity|].
    apply fan_out_error.
Qed.

(** The theorem at the request [gemini_down]. *)
Lemma branch_failure_is_rethrown_and_recorded_witness :
  ∃ st,
    outcome (runParallelAgents gemini_down (initialState "Capital of France?"))
      = Fulfilled st ∧
    state_error BranchA st = Some "Failed to get response from Gemini".
Proof.
  destruct (branch_failure_is_rethrown_and_recorded gemini_down BranchA
              (initialState "Capital of France?")) as (_ & st & Hst & He).
  exists st. split; [exact Hst|]. apply He. eexists. reflexivity.
Defined.

(** C5, as stated, fails: in the request [gemini_down] the Gemini call takes
    100 ms and fails; the workflow completes, but no time is recorded for
    the branch and the response reports a processing time of 0. *)
Lemma failed_branch_has_no_time :
  (∃ st d,
     outcome (executeAgentWorkflow gemini_down "Capital of France?")
       = Fulfilled st ∧
     formatSuccessResponse st = ChatResponse.mk true (Some d) None None ∧
     branch_fails gemini_down BranchA "Capital of France?" ∧
     elapsed gemini_down Gemini = 100 ∧
     state_time BranchA st = None ∧
     AgentResponse.processingTime (reported BranchA d) = 0) ∧
  ¬ (∀ w q b st d,
       outcome (executeAgentWorkflow w q) = Fulfilled st →
       formatSuccessResponse st = ChatResponse.mk true (Some d) None None →
       state_time b st = Some (elapsed w (branch_agent b)) ∧
       AgentResponse.processingTime (reported b d)
         = elapsed w (branch_agent b)).
Proof.
  split.
  - eexists _, _. split; [vm_compute; reflexivity|].
    split; [reflexivity|]. split; [eexists; reflexivity|].
    repeat split.
  - intros H.
    destruct (H gemini_down "Capital of France?" BranchA _ _
                eq_refl eq_refl) as [_ H'].
    vm_compute in H'. discriminate.
Qed.

(** C5, amended: in a completed workflow the elapsed time of a branch whose
    remote call succeeded -- from just before the call to right after it
    settled -- is recorded in the workflow state and reported as the
    processing time of the branch; for a branch whose remote call failed no
    time is recorded and the processing time reported is 0. *)
Theorem branch_time_is_recorded_on_success (w : World) (q : string)
    (b : Branch) :
  synthesis_succeeds w q →
  ∃ st d,
    outcome (executeAgentWorkflow w q) = Fulfilled st ∧
    answers w q 200 (formatSuccessResponse st) ∧
    formatSuccessResponse st = ChatResponse.mk true (Some d) None None ∧
    match remote w (branch_agent b) q with
    | inr _ =>
        state_time b st = Some (elapsed w (branch_agent b)) ∧
        AgentResponse.processingTime (reported b d)
          = elapsed w (branch_agent b)
    | inl _ =>
        state_time b st = None ∧
        AgentResponse.processingTime (reported b d) = 0
    end.
Proof.
  intros (reply & _ & Hrun & Hans)%completed_workflow.
  destruct (reported_branch w q reply b) as (d & Hd & Hb).
  exists (final_state w q reply), d.
  split; [exact Hrun|]. split; [exact Hans|]. split; [exact Hd|].
  destruct (final_state_fields w q reply b) as (_ & _ & ->).
  pose proof (branch_fields w q b) as Hf. simpl in Hf. rewrite Hb.
  destruct (remote w (branch_agent b) q); destruct Hf as (_ & _ & ->); auto.
Qed.

(** The theorem at the request [gemini_down], for the branch that
    succeeds. *)
Lemma branch_time_is_recorded_on_success_witness :
  ∃ st d,
    outcome (executeAgentWorkflow gemini_down "Capital of France?")
      = Fulfilled st ∧
    answers gemini_down "Capital of France?" 200 (formatSuccessResponse st) ∧
    formatSuccessResponse st = ChatResponse.mk true (Some d) None None ∧
    state_time BranchB st = Some 150 ∧
    AgentResponse.processingTime (reported BranchB d) = 150.
Proof.
  apply (branch_time_is_recorded_on_success gemini_down "Capital of France?"
           BranchB).
  apply (synthesis_succeeds_here _ _ paris_reply). reflexivity.
Defined.

(** C6, as stated, fails.  A reasoning section that mentions the final-answer
    marker is cut at that mention, and the final answer then starts there; an
    empty reasoning section gives the placeholder; an empty final-answer
    section gives the whole reply; a reply without markers is trimmed; and
    the markers are recognized in any letter case. *)
Lemma parser_departs_from_the_sections :
  parseClaudeResponse (structured_reply "See FINAL ANSWER: below." "Paris.")
    = Parsed.mk
        ("below." +:+ LF +:+ LF +:+ "FINAL ANSWER:" +:+ LF +:+ "Paris.")
        "See" ∧
  parseClaudeResponse (structured_reply "" "Paris.")
    = Parsed.mk "Paris." "No reasoning provided" ∧
  parseClaudeResponse (structured_reply "Both agree." "")
    = Parsed.mk
        ("REASONING:" +:+ LF +:+ "Both agree." +:+ LF +:+ LF
           +:+ "FINAL ANSWER:")
        "Both agree." ∧
  parseClaudeResponse " Paris. "
    = Parsed.mk "Paris." "No reasoning provided" ∧
  parseClaudeResponse "My reasoning: it is Paris."
    = Parsed.mk "My reasoning: it is Paris." "it is Paris." ∧
  ¬ (∀ r a,
       parseClaudeResponse (structured_reply r a)
       = Parsed.mk (trim a) (trim r)) ∧
  ¬ (∀ reply,
       includes reply "REASONING:" = false →
       includes reply "FINAL ANSWER:" = false →
       parseClaudeResponse reply = Parsed.mk reply "No reasoning provided").
Proof.
  do 5 (split; [vm_compute; reflexivity|]). split.
  - intros H. specialize (H "See FINAL ANSWER: below." "Paris.").
    vm_compute in H. discriminate.
  - intros H. specialize (H " Paris. " eq_refl eq_refl).
    vm_compute in H. discriminate.
Qed.

(** C6, amended: for a reply of the form
    [REASONING:\n<r>\n\nFINAL ANSWER:\n<a>] in which [<r>] does not contain
    the final-answer marker in any letter case and neither [<r>] nor [<a>]
    is empty after trimming, the parser returns [<r>] trimmed as the
    reasoning and [<a>] trimmed as the final answer; for a reply that
    contains neither marker in any letter case it returns the placeholder as
    the reasoning and the trimmed reply as the final answer. *)
Theorem parser_extracts_the_sections :
  (∀ r a,
     occurs_ci "FINAL ANSWER:" r = false → trim r ≠ "" → trim a ≠ "" →
     parseClaudeResponse (structured_reply r a)
     = Parsed.mk (trim a) (trim r)) ∧
  (∀ reply,
     occurs_ci "REASONING:" reply = false →
     occurs_ci "FINAL ANSWER:" reply = false →
     parseClaudeResponse reply
     = Parsed.mk (trim reply) "No reasoning provided").
Proof. split; [exact parse_structured | exact parse_unmarked]. Qed.

(** The theorem at the reply of the end-to-end scenario and at a reply
    without markers. *)
Lemma parser_extracts_the_sections_witness :
  parseClaudeResponse paris_reply = Parsed.mk "Paris." "Both agree." ∧
  parseClaudeResponse " Paris. " = Parsed.mk "Paris." "No reasoning provided".
Proof.
  destruct parser_extracts_the_sections as [H1 H2]. split.
  - apply (H1 "Both agree." "Paris."); [reflexivity | discriminate..].
  - apply (H2 " Paris. "); reflexivity.
Defined.

Lemma question_after_agents w q : question (state_after_agents w q) = q.
Proof.
  unfold state_after_agents, process_openai, process_gemini.
  destruct (branch_result w BranchB q), (branch_result w BranchA q);
    reflexivity.
Qed.

Lemma branch_section_told w q b :
  branch_section (branch_name b)
    (state_response b (state_after_agents w q))
    (state_error b (state_after_agents w q))
  = told_section w b q.
Proof.
  pose proof (branch_fields w q b) as Hf. simpl in Hf.
  unfold told_section, expected_section, branch_section.
  destruct (remote w (branch_agent b) q) as [e|text];
    destruct Hf as (-> & -> & _).
  - rewrite truthy_wrapper_message. reflexivity.
  - destruct text; reflexivity.
Qed.

(** C7, as stated, fails: in the request [gemini_silent] the Gemini branch
    succeeds with an empty text; the synthesis is invoked, but its prompt
    has no section for Gemini and does not mention Gemini at all.  So the
    prompt neither carries a section for each branch, nor even names each
    branch. *)
Lemma silent_branch_is_left_out :
  (∃ prompt,
     issued (executeAgentWorkflow gemini_silent "Capital of France?")
       = [Invoke Gemini "Capital of France?";
          Invoke OpenAI "Capital of France?"; Invoke Claude prompt] ∧
     remote gemini_silent Gemini "Capital of France?" = inr "" ∧
     includes prompt
       (expected_section gemini_silent BranchA "Capital of France?") = false ∧
     includes prompt "Gemini" = false) ∧
  ¬ (∀ w q b prompt,
       Invoke Claude prompt ∈ issued (executeAgentWorkflow w q) →
       includes prompt (expected_section w b q) = true) ∧
  ¬ (∀ w q b prompt,
       Invoke Claude prompt ∈ issued (executeAgentWorkflow w q) →
       includes prompt (branch_name b) = true).
Proof.
  split; [|split].
  - eexists. split; [vm_compute; reflexivity|]. split; [reflexivity|].
    split; vm_compute; reflexivity.
  - intros H.
    specialize (H gemini_silent "Capital of France?" BranchA _
                  (proj2 (claude_invocation _ _ _) eq_refl)).
    vm_compute in H. discriminate.
  - intros H.
    specialize (H gemini_silent "Capital of France?" BranchA _
                  (proj2 (claude_invocation _ _ _) eq_refl)).
    vm_compute in H. discriminate.
Qed.

(** C7, amended: whatever the two branch outcomes are -- also when both
    branches failed, and also when a text is empty -- the synthesis is
    invoked, once, after the two branch calls.  Its prompt is the head with
    the question, what it says of Gemini, what it says of OpenAI, and the
    task: for a branch that failed, the error marker with the failure
    message of that branch; for a branch that succeeded with a text that is
    not empty, the section with that text; and nothing for a branch that
    succeeded with an empty text. *)
Theorem synthesis_is_told_of_each_branch (w : World) (q : string) :
  ∃ prompt,
    issued (executeAgentWorkflow w q)
      = [Invoke Gemini q; Invoke OpenAI q; Invoke Claude prompt] ∧
    prompt
      = prompt_head q +:+ told_section w BranchA q
          +:+ told_section w BranchB q +:+ prompt_task ∧
    ∀ b,
      (remote w (branch_agent b) q = inr "" → told_section w b q = "") ∧
      (remote w (branch_agent b) q ≠ inr "" →
       told_section w b q = expected_section w b q ∧
       includes prompt (expected_section w b q) = true).
Proof.
  exists (workflow_prompt w q).
  split; [rewrite executeAgentWorkflow_run; reflexivity|].
  assert (Hp : workflow_prompt w q
               = prompt_head q +:+ told_section w BranchA q
                   +:+ told_section w BranchB q +:+ prompt_task).
  { unfold workflow_prompt. rewrite buildSynthesisPrompt_sections.
    rewrite question_after_agents.
    rewrite <- (branch_section_told w q BranchA).
    rewrite <- (branch_section_told w q BranchB). reflexivity. }
  split; [exact Hp|]. intros b. split.
  - intros H. unfold told_section. rewrite H. reflexivity.
  - intros H.
    assert (Ht : told_section w b q = expected_section w b q).
    { unfold told_section.
      destruct (remote w (branch_agent b) q) as [e|[|c text]];
        [reflexivity | congruence | reflexivity]. }
    split; [exact Ht|]. rewrite Hp, <- Ht. destruct b.
    + exact (includes_app _ _ _).
    + rewrite <- app_assoc'. exact (includes_app _ _ _).
Qed.

(** The theorem at the request [both_down]: the synthesis is invoked with
    the two error markers. *)
Lemma synthesis_is_told_of_each_branch_witness :
  ∃ prompt,
    issued (executeAgentWorkflow both_down "Capital of France?")
      = [Invoke Gemini "Capital of France?";
         Invoke OpenAI "Capital of France?"; Invoke Claude prompt] ∧
    includes prompt
      ("Gemini's Response: [ERROR] Failed to get response from Gemini"
         +:+ LF +:+ LF) = true ∧
    includes prompt
      ("OpenAI's Response: [ERROR] Failed to get response from OpenAI"
         +:+ LF +:+ LF) = true.
Proof.
  destruct (synthesis_is_told_of_each_branch both_down "Capital of France?")
    as (prompt & Hi & _ & Hb).
  exists prompt. split; [exact Hi|]. split.
  - apply (Hb BranchA). discriminate.
  - apply (Hb BranchB). discriminate.
Defined.

(** C8: when the synthesis call fails, the error thrown by
    [synthesizeResponses] is the error the workflow fails with, unchanged;
    every accepted request is then answered with [success = false], no
    [data], the message of that error as [error] and its stack as
    [details] -- whether the branches succeeded or not. *)
Theorem synthesis_failure_fails_the_request (w : World) (q : string) :
  synthesis_fails w q →
  ∃ input err,
    outcome (synthesizeResponses w input) = Rejected err ∧
    outcome (executeAgentWorkflow w q) = Rejected err ∧
    error_message err = Some "Failed to synthesize responses with Claude" ∧
    answers w q 500
      (ChatResponse.mk false None (error_message err) (error_stack err)).
Proof.
  intros [e He]%synthesis_fails_iff.
  exists (synthesis_input (state_after_agents w q)), (synthesis_error w e).
  split; [|split; [|split]].
  - rewrite synthesizeResponses_run. simpl.
    fold (workflow_prompt w q). rewrite He. reflexivity.
  - rewrite executeAgentWorkflow_run. simpl. rewrite He. reflexivity.
  - reflexivity.
  - intros question s Hq <-. rewrite (askQuestion_run _ _ _ Hq). simpl.
    rewrite He. reflexivity.
Qed.

(** The theorem at the request [claude_down], in which both branches
    succeed. *)
Lemma synthesis_failure_fails_the_request_witness :
  ¬ branch_fails claude_down BranchA "Capital of France?" ∧
  ¬ branch_fails claude_down BranchB "Capital of France?" ∧
  ∃ input err,
    outcome (synthesizeResponses claude_down input) = Rejected err ∧
    outcome (executeAgentWorkflow claude_down "Capital of France?")
      = Rejected err ∧
    error_message err = Some "Failed to synthesize responses with Claude" ∧
    answers claude_down "Capital of France?" 500
      (ChatResponse.mk false None (error_message err) (error_stack err)).
Proof.
  split; [intros [e He]; discriminate He|].
  split; [intros [e He]; discriminate He|].
  apply (synthesis_failure_fails_the_request claude_down "Capital of France?").
  apply (synthesis_fails_here _ _ (JsError "overloaded"
                                     (Some "Error: overloaded"))).
  reflexivity.
Defined.

(** C9: a request whose question is missing, is not a string, or is empty
    after trimming is answered at once with the error response of status
    400; the workflow is not entered and no remote call -- of a branch or of
    the synthesis -- is issued. *)
Theorem invalid_question_is_rejected_first (w : World) (question : JsValue) :
  invalid_question question →
  askQuestion w question =
  mkPromise []
    (Fulfilled
       (mkReply 400
          (ChatResponse.mk false None
             (Some "Question is required and must be a non-empty string")
             (stackOf w
                "Question is required and must be a non-empty string")))).
Proof.
  intros H. unfold askQuestion. rewrite (validation_invalid _ H). reflexivity.
Qed.

(** The theorem at a blank question, a missing one and a number. *)
Lemma invalid_question_is_rejected_first_witness :
  issued (askQuestion paris (JsString "   ")) = [] ∧
  issued (askQuestion paris JsUndefined) = [] ∧
  issued (askQuestion paris (JsNumber 42)) = [].
Proof.
  split; [|split].
  - rewrite (invalid_question_is_rejected_first paris (JsString "   "));
      reflexivity.
  - rewrite (invalid_question_is_rejected_first paris JsUndefined);
      [reflexivity | exact I].
  - rewrite (invalid_question_is_rejected_first paris (JsNumber 42));
      [reflexivity | exact I].
Defined.

(** C10: when the remote call of a branch is rejected with an error [e], the
    branch caller throws a wrapper that carries [e] as its original error,
    and the error reported for the branch -- in the workflow state and in
    the response -- is the fixed message of that caller, whatever the
    message of [e] is. *)
Theorem branch_error_is_the_fixed_message (w : World) (q : string)
    (b : Branch) (e : Thrown) :
  remote w (branch_agent b) q = inl e →
  outcome (branch_caller b w q)
    = Rejected (AgentError (wrapper_message b) (branch_name b) e
                  (stackOf w (wrapper_message b))) ∧
  (∀ state, question state = q →
     ∃ st, outcome (runParallelAgents w state) = Fulfilled st ∧
           state_error b st = Some (wrapper_message b)) ∧
  (∀ st d,
     outcome (executeAgentWorkflow w q) = Fulfilled st →
     formatSuccessResponse st = ChatResponse.mk true (Some d) None None →
     AgentResponse.error (reported b d) = Some (wrapper_message b)).
Proof.
  intros He. split; [|split].
  - rewrite branch_caller_run. unfold branch_result. simpl. rewrite He.
    reflexivity.
  - intros state <-. rewrite runParallelAgents_run.
    eexists. split; [reflexivity|]. apply fan_out_error. eexists; exact He.
  - intros st d. rewrite executeAgentWorkflow_run. simpl.
    destruct (remote w Claude _) as [|reply]; [discriminate|].
    intros [= <-] Hd.
    destruct (reported_branch w q reply b) as (d' & Hd' & Hb).
    assert (d' = d) as -> by congruence.
    rewrite Hb, He. reflexivity.
Qed.

(** The theorem at the request [gemini_down]: the message of the network
    error is not the one reported. *)
Lemma branch_error_is_the_fixed_message_witness :
  outcome (branch_caller BranchA gemini_down "Capital of France?")
    = Rejected (AgentError "Failed to get response from Gemini" "Gemini"
                  (JsError "socket hang up" None) None) ∧
  (∀ state, question state = "Capital of France?" →
     ∃ st, outcome (runParallelAgents gemini_down state) = Fulfilled st ∧
           state_error BranchA st
           = Some "Failed to get response from Gemini") ∧
  (∀ st d,
     outcome (executeAgentWorkflow gemini_down "Capital of France?")
       = Fulfilled st →
     formatSuccessResponse st = ChatResponse.mk true (Some d) None None →
     AgentResponse.error (reported BranchA d)
       = Some "Failed to get response from Gemini").
Proof.
  apply (branch_error_is_the_fixed_message gemini_down "Capital of France?"
           BranchA (JsError "socket hang up" None)).
  reflexivity.
Defined.

(** ** Further properties of the code *)

Lemma trimEnd_idem s : trimEnd (trimEnd s) = trimEnd s.
Proof.
  induction s as [|c s IH]; [reflexivity|].
  simpl. destruct (is_space c && is_empty (trimEnd s)) eqn:E; [reflexivity|].
  simpl. rewrite IH, E. reflexivity.
Qed.

Lemma trimStart_head s :
  trimStart s = "" ∨ ∃ c t, trimStart s = String c t ∧ is_space c = false.
Proof.
  induction s as [|c s IH]; [left; reflexivity|].
  simpl. destruct (is_space c) eqn:E; [exact IH|]. right. eauto.
Qed.

Lemma trim_idem s : trim (trim s) = trim s.
Proof.
  unfold trim. destruct (trimStart_head s) as [->|(c & t & -> & Hc)].
  - reflexivity.
  - simpl. rewrite Hc. simpl. rewrite Hc. simpl.
    rewrite trimEnd_idem, Hc. reflexivity.
Qed.

Lemma accepted_JsString s :
  accepted (JsString s) = if is_empty (trim s) then None else Some s.
Proof. reflexivity. Qed.

Lemma askQuestion_invalid_run w question :
  invalid_question question →
  askQuestion w question =
  mkPromise []
    (Fulfilled
       (mkReply 400
          (ChatResponse.mk false None
             (Some "Question is required and must be a non-empty string")
             (stackOf w
                "Question is required and must be a non-empty string")))).
Proof.
  intros H. unfold askQuestion. rewrite (validation_invalid _ H). reflexivity.
Qed.

Lemma invalid_not_accepted question :
  invalid_question question → accepted question = None.
Proof.
  destruct question as [| | | | s |]; simpl; trivial. intros ->. reflexivity.
Qed.

Lemma synthesis_not_both w q :
  synthesis_succeeds w q → ¬ synthesis_fails w q.
Proof.
  intros [reply H]%synthesis_succeeds_iff [e He]%synthesis_fails_iff.
  congruence.
Qed.

Lemma synthesis_settles w q : synthesis_succeeds w q ∨ synthesis_fails w q.
Proof.
  destruct (remote w Claude (workflow_prompt w q)) as [e|reply] eqn:E.
  - right. eapply synthesis_fails_here, E.
  - left. eapply synthesis_succeeds_here, E.
Qed.

(** X1: when the controller answers a request, the status is 400 exactly
    for a body whose question is invalid, 200 exactly for an accepted
    question whose synthesis call succeeds, and 500 exactly for a missing
    body or an accepted question whose synthesis call fails. *)
Theorem status_follows_the_request (w : World) (typeError : Thrown)
    (body : option JsValue) (r : Reply) :
  outcome (askRequest w typeError body) = Fulfilled r →
  (status r = 400%nat ↔
     ∃ question, body = Some question ∧ invalid_question question) ∧
  (status r = 200%nat ↔
     ∃ question s,
       body = Some question ∧ accepted question = Some s ∧
       synthesis_succeeds w (trim s)) ∧
  (status r = 500%nat ↔
     body = None ∨
     ∃ question s,
       body = Some question ∧ accepted question = Some s ∧
       synthesis_fails w (trim s)).
Proof.
  destruct body as [question|]; simpl.
  - destruct (accepted_or_invalid question) as [Hi|[s Hs]].
    + rewrite (askQuestion_invalid_run _ _ Hi). intros [= <-]. simpl.
      pose proof (invalid_not_accepted _ Hi) as Hn.
      split; [split; [eauto | reflexivity]|]. split.
      * split; [discriminate|].
        intros (q' & s & [= <-] & Hs & _). congruence.
      * split; [discriminate|].
        intros [[=]|(q' & s & [= <-] & Hs & _)]. congruence.
    + rewrite (askQuestion_run _ _ _ Hs).
      assert (Hv : ¬ invalid_question question).
      { intros Hi%invalid_not_accepted. congruence. }
      destruct (remote w Claude (workflow_prompt w (trim s)))
        as [e|reply] eqn:E; intros [= <-]; simpl.
      * pose proof (synthesis_fails_here _ _ _ E) as Hf.
        split; [split; [discriminate|]|].
        { intros (q' & [= <-] & Hi). destruct (Hv Hi). }
        split.
        -- split; [discriminate|].
           intros (q' & s' & [= <-] & Hs' & Hok).
           assert (s' = s) as -> by congruence.
           destruct (synthesis_not_both _ _ Hok Hf).
        -- split; [eauto 10 | reflexivity].
      * pose proof (synthesis_succeeds_here _ _ _ E) as Hok.
        split; [split; [discriminate|]|].
        { intros (q' & [= <-] & Hi). destruct (Hv Hi). }
        split.
        -- split; [eauto 10 | reflexivity].
        -- split; [discriminate|].
           intros [[=]|(q' & s' & [= <-] & Hs' & Hf)].
           assert (s' = s) as -> by congruence.
           destruct (synthesis_not_both _ _ Hok Hf).
  - unfold try_catch. simpl. intros [= <-]. simpl.
    split; [split; [discriminate | intros (q' & [=] & _)]|]. split.
    + split; [discriminate | intros (q' & s & [=] & _)].
    + split; [auto | reflexivity].
Qed.

(** The theorem at a request without a body, and at the request
    [claude_down]. *)
Lemma status_follows_the_request_witness :
  (∃ r,
     outcome (askRequest paris (JsError "req.body is undefined" None) None)
       = Fulfilled r ∧ status r = 500%nat) ∧
  (∃ r,
     outcome (askRequest claude_down (JsError "req.body is undefined" None)
                (Some (JsString "Capital of France?")))
       = Fulfilled r ∧
     status r = 500%nat ∧
     synthesis_fails claude_down "Capital of France?").
Proof.
  split.
  - eexists. split; [reflexivity|].
    destruct (status_follows_the_request paris
                (JsError "req.body is undefined" None) None _ eq_refl)
      as (_ & _ & H). apply H. left. reflexivity.
  - eexists. split; [reflexivity|].
    destruct (status_follows_the_request claude_down
                (JsError "req.body is undefined" None)
                (Some (JsString "Capital of France?")) _ eq_refl)
      as (_ & _ & H).
    split; [reflexivity|].
    destruct (proj1 H eq_refl) as [[=]|(question & s & [= <-] & [= <-] & Hf)].
    exact Hf.
Defined.

(** X2: in every reply [success] is true exactly when the status is 200,
    [data] is present exactly when [success] is true, and [error] is present
    exactly when [success] is false. *)
Theorem reply_shape (w : World) (question : JsValue) :
  ∃ r,
    outcome (askQuestion w question) = Fulfilled r ∧
    (ChatResponse.success (body r) = true ↔ status r = 200%nat) ∧
    (is_Some (ChatResponse.data (body r))
       ↔ ChatResponse.success (body r) = true) ∧
    (is_Some (ChatResponse.error (body r))
       ↔ ChatResponse.success (body r) = false).
Proof.
  destruct (accepted_or_invalid question) as [Hi|[s Hs]].
  - rewrite (askQuestion_invalid_run _ _ Hi). eexists. split; [reflexivity|].
    simpl. repeat split; try discriminate; eauto; intros [? [=]].
  - rewrite (askQuestion_run _ _ _ Hs). eexists. split; [reflexivity|].
    destruct (remote w Claude (workflow_prompt w (trim s))); simpl;
      repeat split; try discriminate; eauto; intros [? [=]].
Qed.

(** X3: an accepted request makes exactly three remote calls, whatever
    their outcomes: Gemini and OpenAI with the trimmed question, then
    Claude; no call is repeated and none is skipped. *)
Theorem accepted_request_calls_each_agent_once (w : World)
    (question : JsValue) (s : string) :
  accepted question = Some s →
  ∃ prompt,
    issued (askQuestion w question)
    = [Invoke Gemini (trim s); Invoke OpenAI (trim s); Invoke Claude prompt].
Proof.
  intros Hs. rewrite (askQuestion_run _ _ _ Hs). eexists. reflexivity.
Qed.

(** The theorem at the request [gemini_down]. *)
Lemma accepted_request_calls_each_agent_once_witness :
  ∃ prompt,
    issued (askQuestion gemini_down (JsString " Capital of France? "))
    = [Invoke Gemini "Capital of France?";
       Invoke OpenAI "Capital of France?"; Invoke Claude prompt].
Proof.
  apply (accepted_request_calls_each_agent_once gemini_down
           (JsString " Capital of France? ") " Capital of France? ").
  reflexivity.
Defined.

(** X4: white space around the question makes no difference: a question
    and its trimmed form get the same calls and the same reply. *)
Theorem surrounding_whitespace_is_ignored (w : World) (s : string) :
  askQuestion w (JsString s) = askQuestion w (JsString (trim s)).
Proof.
  destruct (is_empty (trim s)) eqn:E.
  - assert (Ht : trim s = "")
      by (destruct (trim s); [reflexivity | discriminate]).
    rewrite !askQuestion_invalid_run; [reflexivity | |]; simpl.
    + rewrite trim_idem. exact Ht.
    + exact Ht.
  - rewrite (askQuestion_run w (JsString s) s).
    + rewrite (askQuestion_run w (JsString (trim s)) (trim s)).
      * rewrite trim_idem. reflexivity.
      * rewrite accepted_JsString, trim_idem, E. reflexivity.
    + rewrite accepted_JsString, E. reflexivity.
Qed.

(** X5: the calls and the reply of a request do not depend on which branch
    settles first. *)
Theorem reply_does_not_depend_on_the_settle_order (w : World)
    (o : SettleOrder) (question : JsValue) :
  askQuestion (with_order o w) question = askQuestion w question.
Proof.
  destruct (accepted_or_invalid question) as [Hi|[s Hs]].
  - rewrite !(askQuestion_invalid_run _ _ Hi). reflexivity.
  - rewrite !(askQuestion_run _ _ _ Hs). reflexivity.
Qed.

(** X6: in every success response the total processing time is the sum of
    the three processing times reported; a branch that failed contributes
    0, so that with both branches failed the total is the time of the
    synthesis alone. *)
Theorem total_is_the_sum_of_the_reported_times (w : World) (q : string) :
  synthesis_succeeds w q →
  ∃ st d,
    outcome (executeAgentWorkflow w q) = Fulfilled st ∧
    formatSuccessResponse st = ChatResponse.mk true (Some d) None None ∧
    ChatResponseData.totalProcessingTime d
      = AgentResponse.processingTime (reported BranchA d)
        + AgentResponse.processingTime (reported BranchB d)
        + ClaudeResponse.processingTime
            (Agents.claude (ChatResponseData.agents d)) ∧
    ChatResponseData.totalProcessingTime d
      = match remote w Gemini q with
        | inr _ => elapsed w Gemini
        | inl _ => 0
        end
        + match remote w OpenAI q with
          | inr _ => elapsed w OpenAI
          | inl _ => 0
          end
        + elapsed w Claude.
Proof.
  intros (reply & _ & Hrun & _)%completed_workflow.
  exists (final_state w q reply). eexists.
  split; [exact Hrun|]. split; [reflexivity|].
  unfold final_state, state_after_agents, branch_result. simpl.
  destruct (remote w Gemini q), (remote w OpenAI q); simpl;
    rewrite ?if_zero; split; lia.
Qed.

(** The theorem at the request [gemini_down]: 0 + 150 + 50 ms. *)
Lemma total_is_the_sum_of_the_reported_times_witness :
  ∃ st d,
    outcome (executeAgentWorkflow gemini_down "Capital of France?")
      = Fulfilled st ∧
    formatSuccessResponse st = ChatResponse.mk true (Some d) None None ∧
    ChatResponseData.totalProcessingTime d
      = AgentResponse.processingTime (reported BranchA d)
        + AgentResponse.processingTime (reported BranchB d)
        + ClaudeResponse.processingTime
            (Agents.claude (ChatResponseData.agents d)) ∧
    ChatResponseData.totalProcessingTime d = 0 + 150 + 50.
Proof.
  apply (total_is_the_sum_of_the_reported_times gemini_down
           "Capital of France?").
  apply (synthesis_succeeds_here _ _ paris_reply). reflexivity.
Defined.

(** X7: the workflow fails only through the synthesis: it is fulfilled
    exactly when the synthesis call succeeds, and when it is rejected the
    synthesis call has failed and the reason is the Claude error of
    [synthesizeResponses] -- a failure of a branch never fails the
    workflow. *)
Theorem workflow_fails_only_through_synthesis (w : World) (q : string) :
  ((∃ st, outcome (executeAgentWorkflow w q) = Fulfilled st)
     ↔ synthesis_succeeds w q) ∧
  (∀ err, outcome (executeAgentWorkflow w q) = Rejected err →
     synthesis_fails w q ∧
     ∃ e, err = AgentError "Failed to synthesize responses with Claude"
                  "Claude" e
                  (stackOf w "Failed to synthesize responses with Claude")).
Proof.
  rewrite executeAgentWorkflow_run. simpl.
  destruct (remote w Claude (workflow_prompt w q)) as [e|reply] eqn:E.
  - split; [split|].
    + intros [st [=]].
    + intros Hok. destruct (synthesis_not_both _ _ Hok).
      eapply synthesis_fails_here, E.
    + intros err [= <-]. split; [eapply synthesis_fails_here, E|].
      eexists. reflexivity.
  - split; [split|].
    + intros _. eapply synthesis_succeeds_here, E.
    + eauto.
    + discriminate.
Qed.

(** The theorem at the request [both_down]: both branches fail and the
    workflow is fulfilled. *)
Lemma workflow_fails_only_through_synthesis_witness :
  ∃ st, outcome (executeAgentWorkflow both_down "Capital of France?")
        = Fulfilled st.
Proof.
  destruct (workflow_fails_only_through_synthesis both_down
              "Capital of France?") as [H _].
  apply H. apply (synthesis_succeeds_here _ _ paris_reply). reflexivity.
Defined.

Lemma runClaudeSynthesis_run w state :
  runClaudeSynthesis w state =
  mkPromise [Invoke Claude (buildSynthesisPrompt (synthesis_input state))]
    match remote w Claude (buildSynthesisPrompt (synthesis_input state)) with
    | inr reply =>
        Fulfilled
          (AgentState.mk (question state)
             (geminiResponse state) (geminiError state)
             (openaiResponse state) (openaiError state)
             (Some (Parsed.finalAnswer (parseClaudeResponse reply)))
             (Some (Parsed.reasoning (parseClaudeResponse reply)))
             (Metadata.mk (Metadata.geminiTime (metadata state))
                (Metadata.openaiTime (metadata state))
                (Some (elapsed w Claude))
                (or_zero (Metadata.geminiTime (metadata state)) +
                 or_zero (Metadata.openaiTime (metadata state)) +
                 elapsed w Claude)))
    | inl e => Rejected (synthesis_error w e)
    end.
Proof.
  unfold runClaudeSynthesis, mbind, Promise_bind, await.
  rewrite synthesizeResponses_run.
  fold (synthesis_input state). simpl.
  destruct (remote w Claude _); reflexivity.
Qed.

(** X8: each stage writes its own fields only.  The fan-out, on any state,
    is fulfilled and keeps the question, the final answer, the reasoning,
    the synthesis time and the total time; the synthesis, when it is
    fulfilled, keeps the question and the response, error and time of both
    branches. *)
Theorem each_stage_writes_its_own_fields (w : World) (state : AgentState.t) :
  (∃ st,
     outcome (runParallelAgents w state) = Fulfilled st ∧
     question st = question state ∧
     finalAnswer st = finalAnswer state ∧
     reasoning st = reasoning state ∧
     Metadata.claudeTime (metadata st)
       = Metadata.claudeTime (metadata state) ∧
     Metadata.totalTime (metadata st) = Metadata.totalTime (metadata state)) ∧
  (∀ st,
     outcome (runClaudeSynthesis w state) = Fulfilled st →
     question st = question state ∧
     ∀ b, state_response b st = state_response b state ∧
          state_error b st = state_error b state ∧
          state_time b st = state_time b state).
Proof.
  split.
  - rewrite runParallelAgents_run. eexists. split; [reflexivity|].
    destruct (branch_result w BranchA _), (branch_result w BranchB _);
      simpl; auto.
  - intros st. rewrite runClaudeSynthesis_run. simpl.
    destruct (remote w Claude _); [discriminate|].
    intros [= <-]. split; [reflexivity|]. intros []; auto.
Qed.

Lemma or_string_trimmed (m : option string) (d : string) :
  trim d = d →
  trim (or_string (trim <$> m) d) = or_string (trim <$> m) d.
Proof.
  intros Hd. destruct m as [x|]; [|exact Hd].
  unfold or_string. simpl. destruct (is_empty (trim x)); simpl.
  - exact Hd.
  - apply trim_idem.
Qed.

Lemma or_string_empty (m : option string) (d : string) :
  or_string m d = "" → d = "".
Proof.
  unfold or_string. destruct m as [[|c x]|]; simpl; trivial. discriminate.
Qed.

(** X9: whatever the reply, the final answer and the reasoning that the
    parser returns carry no white space at either end, and the reasoning is
    never empty. *)
Theorem parsed_sections_are_trimmed (reply : string) :
  let p := parseClaudeResponse reply in
  trim (Parsed.finalAnswer p) = Parsed.finalAnswer p ∧
  trim (Parsed.reasoning p) = Parsed.reasoning p ∧
  Parsed.reasoning p ≠ "".
Proof.
  unfold parseClaudeResponse. simpl. split; [|split].
  - apply or_string_trimmed, trim_idem.
  - apply or_string_trimmed. reflexivity.
  - intros H%or_string_empty. discriminate H.
Qed.

Lemma space_is_not_F c : is_space c = true → ci_eqb "F" c = false.
Proof.
  destruct c as [[] [] [] [] [] [] [] []]; try discriminate; reflexivity.
Qed.

Lemma blank_has_no_final_answer_marker s :
  trimStart s = "" → search (lit_ci "FINAL ANSWER:") s = None.
Proof.
  induction s as [|c s IH]; [reflexivity|].
  simpl trimStart. destruct (is_space c) eqn:E; [|discriminate].
  intros H. simpl. rewrite (space_is_not_F _ E). exact (IH H).
Qed.

Lemma trim_empty s : trim s = "" → trimStart s = "".
Proof.
  unfold trim. destruct (trimStart_head s) as [->|(c & t & -> & Hc)];
    [reflexivity|].
  simpl. rewrite Hc. discriminate.
Qed.

(** X10: the final answer is empty only for a blank reply: a reply that
    holds anything but white space always gives a final answer. *)
Theorem final_answer_is_empty_only_for_a_blank_reply (reply : string) :
  Parsed.finalAnswer (parseClaudeResponse reply) = "" ↔ trim reply = "".
Proof.
  unfold parseClaudeResponse. simpl. split.
  - apply or_string_empty.
  - intros H.
    rewrite (search_None_mono _ finalAnswer_re _ finalAnswer_re_None
               (blank_has_no_final_answer_marker _ (trim_empty _ H))).
    exact H.
Qed.

(** X11: each marker has its own fallback: without a final-answer marker
    (in any letter case) the final answer is the whole trimmed reply, and
    without a reasoning marker the reasoning is the placeholder, whether
    the other marker is there or not. *)
Theorem missing_marker_falls_back (reply : string) :
  (occurs_ci "FINAL ANSWER:" reply = false →
   Parsed.finalAnswer (parseClaudeResponse reply) = trim reply) ∧
  (occurs_ci "REASONING:" reply = false →
   Parsed.reasoning (parseClaudeResponse reply) = "No reasoning provided").
Proof.
  unfold parseClaudeResponse. simpl. split.
  - intros Hf%occurs_ci_false.
    rewrite (search_None_mono _ finalAnswer_re _ finalAnswer_re_None Hf).
    reflexivity.
  - intros Hr%occurs_ci_false.
    rewrite (search_None_mono _ reasoning_re _ reasoning_re_None Hr).
    reflexivity.
Qed.

(** The theorem at a reply with a reasoning marker only. *)
Lemma missing_marker_falls_back_witness :
  Parsed.finalAnswer (parseClaudeResponse "Reasoning: it is Paris. ")
  = "Reasoning: it is Paris.".
Proof.
  apply (missing_marker_falls_back "Reasoning: it is Paris. "). reflexivity.
Defined.

Lemma lit_ci_matches p m t :
  matches_ci p m = true → lit_ci p (m +:+ t) = Some t.
Proof.
  revert m. induction p as [|pc p IH]; intros [|c m]; try discriminate.
  - reflexivity.
  - simpl. intros [Hc Hm]%andb_prop.
    change (lit_ci (String pc p) (String c (m +:+ t)) = Some t).
    simpl. rewrite Hc. exact (IH _ Hm).
Qed.

Lemma search_here {A} (f : string → option A) s v :
  f s = Some v → search f s = Some v.
Proof. intros H. destruct s; simpl; rewrite H; reflexivity. Qed.

Lemma ci_eqb_other x p c :
  ci_eqb p c = true → ci_eqb x p = false → ci_eqb x c = false.
Proof.
  unfold ci_eqb. intros H%N.eqb_eq. rewrite H. trivial.
Qed.

Lemma free_of_matches x p m :
  matches_ci p m = true → free_of x p = true → free_of x m = true.
Proof.
  revert m. induction p as [|pc p IH]; intros [|c m]; try discriminate.
  - trivial.
  - simpl. intros [Hc Hm]%andb_prop [Hx Hp]%andb_prop.
    apply negb_true_iff in Hx.
    rewrite (ci_eqb_other _ _ _ Hc Hx). simpl. exact (IH _ Hm Hp).
Qed.

Lemma free_of_F_no_final_answer m rest :
  free_of "F" m = true → no_match_before finalAnswer_re m rest.
Proof.
  induction m as [|c m IH]; [intros _; exact I|].
  simpl. intros [Hc Hm]%andb_prop. split; [|exact (IH Hm)].
  apply negb_true_iff in Hc.
  change (finalAnswer_re (String c (m +:+ rest)) = None).
  unfold finalAnswer_re. simpl. rewrite Hc. reflexivity.
Qed.

Lemma reasoning_marked m1 m2 r a :
  matches_ci "REASONING:" m1 = true →
  matches_ci "FINAL ANSWER:" m2 = true →
  search (lit_ci "FINAL ANSWER:") r = None → trimStart r ≠ "" →
  search reasoning_re
    (m1 +:+ LF +:+ r +:+ LF +:+ LF +:+ m2 +:+ LF +:+ a)
  = Some (trimStart r +:+ LF +:+ LF).
Proof.
  intros H1 H2 Hr Hne.
  set (rest := m2 +:+ LF +:+ a).
  assert (Hk : lazy_any (ahead_lit_or_end "FINAL ANSWER:")
                 ((trimStart r +:+ LF +:+ LF) +:+ rest)
               = Some (trimStart r +:+ LF +:+ LF, ())).
  { apply lazy_any_skip.
    - apply no_match_before_app.
      + apply (no_match_before_mono (lit_ci "FINAL ANSWER:")).
        * intros y Hy. apply ahead_None, Hy.
        * rewrite app_assoc'. apply no_occurrence_before; [reflexivity|].
          apply search_None_trimStart, Hr.
      + repeat split.
    - unfold ahead_lit_or_end, rest. rewrite (lit_ci_matches _ _ _ H2).
      reflexivity. }
  rewrite !app_assoc' in Hk.
  apply search_here. unfold reasoning_re.
  rewrite (lit_ci_matches _ _ _ H1). cbn [mbind option_bind].
  rewrite (star_space_trimStart _ (LF +:+ r +:+ LF +:+ LF +:+ rest)
             (trimStart r +:+ LF +:+ LF, ())); [reflexivity|].
  change (trimStart (LF +:+ r +:+ LF +:+ LF +:+ rest))
    with (trimStart (r +:+ LF +:+ LF +:+ rest)).
  rewrite trimStart_app by exact Hne. exact Hk.
Qed.

Lemma finalAnswer_marked m1 m2 r a :
  matches_ci "REASONING:" m1 = true →
  matches_ci "FINAL ANSWER:" m2 = true →
  search (lit_ci "FINAL ANSWER:") r = None →
  search finalAnswer_re
    (m1 +:+ LF +:+ r +:+ LF +:+ LF +:+ m2 +:+ LF +:+ a)
  = Some (trimStart a).
Proof.
  intros H1 H2 Hr.
  set (rest := m2 +:+ LF +:+ a).
  assert (Hpre : no_match_before finalAnswer_re
                   (m1 +:+ LF +:+ r +:+ LF +:+ LF) rest).
  { apply no_match_before_app.
    { apply free_of_F_no_final_answer.
      apply (free_of_matches _ _ _ H1). reflexivity. }
    apply (no_match_before_app _ LF); [repeat split|].
    apply no_match_before_app; [|repeat split].
    apply (no_match_before_mono (lit_ci "FINAL ANSWER:")).
    - intros y _. apply finalAnswer_re_None.
    - apply no_occurrence_before; [reflexivity|exact Hr]. }
  apply search_skip in Hpre. rewrite !app_assoc' in Hpre.
  rewrite Hpre. apply search_here.
  unfold finalAnswer_re, rest. rewrite (lit_ci_matches _ _ _ H2).
  cbn [mbind option_bind].
  rewrite (star_space_trimStart _ (LF +:+ a) (trimStart a, ()));
    [reflexivity|].
  change (trimStart (LF +:+ a)) with (trimStart a).
  apply lazy_any_at_end.
Qed.

(** X12: the markers are read in any letter case: a reply laid out as
    asked, with markers such as [Reasoning:] and [Final Answer:], whose
    reasoning does not mention the final-answer marker and whose sections
    are not blank, is split into the trimmed reasoning and the trimmed
    final answer. *)
Theorem markers_are_read_in_any_letter_case (m1 m2 r a : string) :
  matches_ci "REASONING:" m1 = true →
  matches_ci "FINAL ANSWER:" m2 = true →
  occurs_ci "FINAL ANSWER:" r = false → trim r ≠ "" → trim a ≠ "" →
  parseClaudeResponse (m1 +:+ LF +:+ r +:+ LF +:+ LF +:+ m2 +:+ LF +:+ a)
  = Parsed.mk (trim a) (trim r).
Proof.
  intros H1 H2 Hr%occurs_ci_false Hrne Hane.
  unfold parseClaudeResponse.
  rewrite (reasoning_marked _ _ _ _ H1 H2 Hr (trimEnd_nonempty r Hrne)).
  rewrite (finalAnswer_marked _ _ _ _ H1 H2 Hr). simpl fmap.
  assert (Er : trim (trimStart r +:+ LF +:+ LF) = trim r).
  { unfold trim. rewrite trimStart_app; rewrite trimStart_idem.
    - apply trimEnd_LF_LF.
    - apply trimEnd_nonempty, Hrne. }
  assert (Ea : trim (trimStart a) = trim a).
  { unfold trim. rewrite trimStart_idem. reflexivity. }
  rewrite Er, Ea, !or_string_nonempty by assumption. reflexivity.
Qed.

(** The theorem at a reply with markers in mixed case. *)
Lemma markers_are_read_in_any_letter_case_witness :
  parseClaudeResponse
    ("Reasoning:" +:+ LF +:+ " Both agree." +:+ LF +:+ LF
       +:+ "Final Answer:" +:+ LF +:+ "Paris. ")
  = Parsed.mk "Paris." "Both agree.".
Proof.
  apply (markers_are_read_in_any_letter_case "Reasoning:" "Final Answer:"
           " Both agree." "Paris. ");
    [reflexivity.. | discriminate | discriminate].
Defined.


(** ** The configuration *)

Example parseInt_reads_a_leading_integer :
  parseInt "3000" = Some 3000 ∧ parseInt "  8080abc" = Some 8080 ∧
  parseInt "-12" = Some (-12) ∧ parseInt "+7.5" = Some 7 ∧
  parseInt "abc" = None ∧ parseInt "" = None ∧ parseInt "- 5" = None.
Proof. repeat split. Qed.

Lemma validateEnv_cases stack (env : gmap string string) :
  validateEnv stack env =
  match truthy (env !! "GEMINI_API_KEY"), truthy (env !! "OPENAI_API_KEY") with
  | Some _, Some _ =>
      inr (EnvConfig.mk
             (parseInt (or_string (env !! "PORT") "3000"))
             (env !! "GEMINI_API_KEY")
             (env !! "OPENAI_API_KEY")
             (env !! "ANTHROPIC_API_KEY")
             (or_string (env !! "GEMINI_MODEL") "gemini-2.5-flash")
             (or_string (env !! "OPENAI_MODEL") "gpt-5-mini")
             (or_string (env !! "CLAUDE_MODEL") "claude-sonnet-4-5-20250929"))
  | None, Some _ =>
      inl (JsError "Missing required environment variables: GEMINI_API_KEY"
             stack)
  | Some _, None =>
      inl (JsError "Missing required environment variables: OPENAI_API_KEY"
             stack)
  | None, None =>
      inl (JsError
             "Missing required environment variables: GEMINI_API_KEY, OPENAI_API_KEY"
             stack)
  end.
Proof.
  unfold validateEnv, requiredEnvVars.
  rewrite !filter_cons, filter_nil.
  destruct (truthy (env !! "GEMINI_API_KEY")) eqn:Eg,
           (truthy (env !! "OPENAI_API_KEY")) eqn:Eo;
    repeat case_decide; try congruence; try (simpl in *; lia); reflexivity.
Qed.

Lemma truthy_Some (a : option string) v :
  truthy a = Some v ↔ a = Some v ∧ v ≠ "".
Proof.
  destruct a as [[|c s]|]; simpl; split; try discriminate.
  - intros [[= <-] H]. congruence.
  - intros [= <-]. split; [reflexivity | discriminate].
  - intros [[= <-] _]. reflexivity.
  - intros [[=] _].
Qed.

(** X13: [validateEnv] succeeds exactly when GEMINI_API_KEY and
    OPENAI_API_KEY are both set and not empty. *)
Theorem validateEnv_requires_the_two_branch_keys (stack : option string)
    (env : gmap string string) :
  (∃ cfg, validateEnv stack env = inr cfg) ↔
  (∃ g o, env !! "GEMINI_API_KEY" = Some g ∧ g ≠ "" ∧
          env !! "OPENAI_API_KEY" = Some o ∧ o ≠ "").
Proof.
  rewrite validateEnv_cases. split.
  - intros [cfg H].
    destruct (truthy (env !! "GEMINI_API_KEY")) as [g|] eqn:Eg,
             (truthy (env !! "OPENAI_API_KEY")) as [o|] eqn:Eo;
      try discriminate.
    apply truthy_Some in Eg as [Eg ?], Eo as [Eo ?]. eauto 10.
  - intros (g & o & Hg & Hgne & Ho & Hone).
    rewrite (proj2 (truthy_Some _ g)), (proj2 (truthy_Some _ o)) by auto.
    eauto.
Qed.

(** X14: [validateEnv] does not check ANTHROPIC_API_KEY: an environment
    that passes still passes without that variable, and the configuration
    then has no Anthropic key. *)
Theorem validateEnv_does_not_check_the_anthropic_key (stack : option string)
    (env : gmap string string) (cfg : EnvConfig.t) :
  validateEnv stack env = inr cfg →
  ∃ cfg',
    validateEnv stack (delete "ANTHROPIC_API_KEY" env) = inr cfg' ∧
    EnvConfig.ANTHROPIC_API_KEY cfg' = None ∧
    EnvConfig.ANTHROPIC_API_KEY cfg = env !! "ANTHROPIC_API_KEY".
Proof.
  rewrite !validateEnv_cases.
  rewrite !(lookup_delete_ne env "ANTHROPIC_API_KEY") by discriminate.
  rewrite lookup_delete_eq.
  destruct (truthy (env !! "GEMINI_API_KEY")),
           (truthy (env !! "OPENAI_API_KEY")); try discriminate.
  intros [= <-]. eexists. split; [reflexivity|]. split; reflexivity.
Qed.

(** The theorem at an environment with the two branch keys only. *)
Lemma validateEnv_does_not_check_the_anthropic_key_witness :
  ∃ cfg',
    validateEnv None (delete "ANTHROPIC_API_KEY" branch_keys_only)
      = inr cfg' ∧
    EnvConfig.ANTHROPIC_API_KEY cfg' = None ∧
    None = branch_keys_only !! "ANTHROPIC_API_KEY".
Proof.
  apply (validateEnv_does_not_check_the_anthropic_key None branch_keys_only
           (EnvConfig.mk (Some 3000) (Some "g-key") (Some "o-key") None
              "gemini-2.5-flash" "gpt-5-mini" "claude-sonnet-4-5-20250929")).
  vm_compute. reflexivity.
Defined.

(** X15: when [validateEnv] fails, the message of its error names a
    required variable exactly when that variable is unset or empty. *)
Theorem missing_variables_are_named (stack : option string)
    (env : gmap string string) (err : Thrown) :
  validateEnv stack env = inl err →
  ∃ message,
    err = JsError message stack ∧
    ∀ name, name ∈ requiredEnvVars →
      (includes message name = true ↔ truthy (env !! name) = None).
Proof.
  rewrite validateEnv_cases.
  destruct (truthy (env !! "GEMINI_API_KEY")) eqn:Eg,
           (truthy (env !! "OPENAI_API_KEY")) eqn:Eo;
    try discriminate; intros [= <-]; eexists; (split; [reflexivity|]);
    intros name Hn; unfold requiredEnvVars in Hn;
    rewrite !elem_of_cons, elem_of_nil in Hn;
    destruct Hn as [->|[->|[]]]; rewrite ?Eg, ?Eo;
    (split; [vm_compute; congruence | reflexivity || discriminate]).
Qed.

(** The theorem at an environment whose OpenAI key is empty. *)
Lemma missing_variables_are_named_witness :
  ∃ message,
    JsError "Missing required environment variables: OPENAI_API_KEY" None
      = JsError message None ∧
    ∀ name, name ∈ requiredEnvVars →
      (includes message name = true
         ↔ truthy (empty_openai_key !! name) = None).
Proof.
  apply (missing_variables_are_named None empty_openai_key).
  vm_compute. reflexivity.
Defined.

Lemma or_string_default_nonempty a d : d ≠ "" → or_string a d ≠ "".
Proof.
  intros Hd. unfold or_string. destruct a as [[|c s]|]; simpl; congruence.
Qed.

Lemma or_string_falsy a d : truthy a = None → or_string a d = d.
Proof. unfold or_string. intros ->. reflexivity. Qed.

(** X16: a setting that is unset or empty takes its default: port 3000
    and the three default model names; a model name of the configuration is
    never empty. *)
Theorem unset_or_empty_settings_take_their_defaults (stack : option string)
    (env : gmap string string) (cfg : EnvConfig.t) :
  validateEnv stack env = inr cfg →
  (truthy (env !! "PORT") = None → EnvConfig.PORT cfg = Some 3000) ∧
  (truthy (env !! "GEMINI_MODEL") = None →
   EnvConfig.GEMINI_MODEL cfg = "gemini-2.5-flash") ∧
  (truthy (env !! "OPENAI_MODEL") = None →
   EnvConfig.OPENAI_MODEL cfg = "gpt-5-mini") ∧
  (truthy (env !! "CLAUDE_MODEL") = None →
   EnvConfig.CLAUDE_MODEL cfg = "claude-sonnet-4-5-20250929") ∧
  EnvConfig.GEMINI_MODEL cfg ≠ "" ∧
  EnvConfig.OPENAI_MODEL cfg ≠ "" ∧
  EnvConfig.CLAUDE_MODEL cfg ≠ "".
Proof.
  rewrite validateEnv_cases.
  destruct (truthy (env !! "GEMINI_API_KEY")),
           (truthy (env !! "OPENAI_API_KEY")); try discriminate.
  intros [= <-]. simpl.
  split; [intros ->%(or_string_falsy _ "3000"); reflexivity|].
  split; [apply or_string_falsy|]. split; [apply or_string_falsy|].
  split; [apply or_string_falsy|].
  repeat split; apply or_string_default_nonempty; discriminate.
Qed.

(** The theorem at an environment with the two branch keys only. *)
Lemma unset_or_empty_settings_take_their_defaults_witness :
  ∃ cfg,
    validateEnv None branch_keys_only = inr cfg ∧
    EnvConfig.PORT cfg = Some 3000 ∧
    EnvConfig.GEMINI_MODEL cfg = "gemini-2.5-flash" ∧
    EnvConfig.OPENAI_MODEL cfg = "gpt-5-mini" ∧
    EnvConfig.CLAUDE_MODEL cfg = "claude-sonnet-4-5-20250929".
Proof.
  assert (E : validateEnv None branch_keys_only
              = inr (EnvConfig.mk (Some 3000) (Some "g-key") (Some "o-key")
                       None "gemini-2.5-flash" "gpt-5-mini"
                       "claude-sonnet-4-5-20250929"))
    by (vm_compute; reflexivity).
  destruct (unset_or_empty_settings_take_their_defaults None
              branch_keys_only _ E) as (Hp & Hg & Ho & Hc & _).
  eexists. split; [exact E|].
  split; [apply Hp; reflexivity|]. split; [apply Hg; reflexivity|].
  split; [apply Ho; reflexivity | apply Hc; reflexivity].
Defined.

(** ** The component *)

Lemma handleSubmit_blocked clock stamp fetch st :
  is_empty (trim (App.question st)) || App.loading st = true →
  handleSubmit clock stamp fetch st = ([], st).
Proof. intros H. unfold handleSubmit. rewrite H. reflexivity. Qed.

Lemma update_message_length messageId f prev :
  length (update_message messageId f prev) = length prev.
Proof. apply length_fmap. Qed.

Lemma update_message_other messageId f prev i m :
  prev !! i = Some m → Message.id m ≠ messageId →
  update_message messageId f prev !! i = Some m.
Proof.
  intros Hi Hm. unfold update_message. rewrite list_lookup_fmap, Hi. simpl.
  rewrite bool_decide_eq_false_2 by exact Hm. reflexivity.
Qed.

Lemma update_message_last messageId f prev newMessage :
  Message.id newMessage = messageId →
  last (update_message messageId f (prev ++ [newMessage]))
  = Some (f newMessage).
Proof.
  intros Hid. unfold update_message. rewrite fmap_last, last_snoc. simpl.
  rewrite bool_decide_eq_true_2 by exact Hid. reflexivity.
Qed.

(** The state after a call that passes the guard. *)
Lemma handleSubmit_sent clock stamp fetch st :
  is_empty (trim (App.question st)) = false → App.loading st = false →
  ∃ f,
    handleSubmit clock stamp fetch st
    = ([trim (App.question st)],
       App.mk ""
         (update_message (pretty clock) f
            (App.messages st
               ++ [Message.mk (pretty clock) (trim (App.question st))
                     None None stamp]))
         false) ∧
    f = match fetch (trim (App.question st)) with
        | fetch_json data =>
            match
              if ChatResponse.success data then ChatResponse.data data
              else None
            with
            | Some d => with_response d
            | None =>
                with_error
                  (or_string (ChatResponse.error data) "An error occurred")
            end
        | fetch_throws err =>
            with_error
              (default "Network error - unable to reach server"
                 (error_message err))
        end.
Proof.
  intros Hq Hl. eexists. split; [|reflexivity].
  unfold handleSubmit. rewrite Hq, Hl. simpl.
  destruct (fetch _) as [err|data]; [reflexivity|].
  destruct (if ChatResponse.success data then _ else _); reflexivity.
Qed.

(** X17: the component sends only questions that the controller accepts:
    what it sends is trimmed and not empty, so a request of the component
    is never answered with status 400. *)
Theorem component_sends_only_accepted_questions (clock stamp : Z)
    (fetch : string → Fetched) (st : App.t) (q : string) :
  q ∈ (handleSubmit clock stamp fetch st).1 →
  accepted (JsString q) = Some q ∧
  trim q = q ∧
  ∀ w, ∃ r,
    outcome (askQuestion w (JsString q)) = Fulfilled r ∧ status r ≠ 400%nat.
Proof.
  unfold handleSubmit.
  destruct (is_empty (trim (App.question st))) eqn:Hq; simpl;
    [intros []%elem_of_nil|].
  destruct (App.loading st); simpl; [intros []%elem_of_nil|].
  intros ->%list_elem_of_singleton.
  assert (Ha : accepted (JsString (trim (App.question st)))
               = Some (trim (App.question st))).
  { rewrite accepted_JsString, trim_idem, Hq. reflexivity. }
  split; [exact Ha|]. split; [apply trim_idem|].
  intros w. rewrite (askQuestion_run _ _ _ Ha). eexists.
  split; [reflexivity|].
  destruct (remote w Claude _); discriminate.
Qed.

(** The theorem at the state [typed]. *)
Lemma component_sends_only_accepted_questions_witness :
  accepted (JsString "Capital of France?") = Some "Capital of France?" ∧
  trim "Capital of France?" = "Capital of France?" ∧
  ∀ w, ∃ r,
    outcome (askQuestion w (JsString "Capital of France?")) = Fulfilled r ∧
    status r ≠ 400%nat.
Proof.
  apply (component_sends_only_accepted_questions 1700000000000 1700000000001
           (server gemini_down) typed).
  apply list_elem_of_singleton. reflexivity.
Defined.

(** X18: with a blank question, or while a request is in flight,
    [handleSubmit] sends nothing and changes nothing; otherwise it sends
    the trimmed question once, clears the input, ends with [loading] false
    and one more message, and leaves every earlier message with another id
    as it was. *)
Theorem submission_appends_one_message (clock stamp : Z)
    (fetch : string → Fetched) (st : App.t) :
  (is_empty (trim (App.question st)) || App.loading st = true →
   handleSubmit clock stamp fetch st = ([], st)) ∧
  (is_empty (trim (App.question st)) || App.loading st = false →
   ∃ st',
     handleSubmit clock stamp fetch st = ([trim (App.question st)], st') ∧
     App.question st' = "" ∧
     App.loading st' = false ∧
     length (App.messages st') = S (length (App.messages st)) ∧
     ∀ i m,
       App.messages st !! i = Some m → Message.id m ≠ pretty clock →
       App.messages st' !! i = Some m).
Proof.
  split; [apply handleSubmit_blocked|].
  intros [Hq Hl]%orb_false_elim.
  destruct (handleSubmit_sent clock stamp fetch st Hq Hl) as (f & -> & _).
  eexists. split; [reflexivity|]. simpl.
  split; [reflexivity|]. split; [reflexivity|]. split.
  - rewrite update_message_length, length_app. simpl. lia.
  - intros i m Hi Hm. apply update_message_other; [|exact Hm].
    apply lookup_app_l_Some, Hi.
Qed.

(** The theorem at the state [typed]: the earlier message stays. *)
Lemma submission_appends_one_message_witness :
  ∃ st',
    handleSubmit 1700000000000 1700000000001 (server gemini_down) typed
      = (["Capital of France?"], st') ∧
    App.question st' = "" ∧
    App.loading st' = false ∧
    length (App.messages st') = 2%nat.
Proof.
  destruct (submission_appends_one_message 1700000000000 1700000000001
              (server gemini_down) typed) as [_ H].
  destruct (H eq_refl) as (st' & Hs & Hq & Hl & Hn & _).
  exists st'. auto.
Defined.

Lemma or_string_error_view a msg :
  message_view (with_error (or_string a "An error occurred") msg)
  = ErrorBlock (or_string a "An error occurred").
Proof.
  unfold message_view, with_error, or_string. simpl.
  destruct a as [[|c s]|]; reflexivity.
Qed.

(** X19: after a submission the new message is the last one, with the
    trimmed question.  When the server answered with JSON it shows the
    response (for [success] with [data]) or an error text that is not
    empty; it is left showing the spinner exactly when the request threw an
    Error whose message is empty. *)
Theorem view_of_the_submitted_message (clock stamp : Z)
    (fetch : string → Fetched) (st : App.t) :
  is_empty (trim (App.question st)) = false → App.loading st = false →
  ∃ m,
    last (App.messages (handleSubmit clock stamp fetch st).2) = Some m ∧
    Message.id m = pretty clock ∧
    Message.question m = trim (App.question st) ∧
    (∀ data, fetch (trim (App.question st)) = fetch_json data →
       message_view m =
       match
         if ChatResponse.success data then ChatResponse.data data else None
       with
       | Some d => ResponseBlock d
       | None =>
           ErrorBlock (or_string (ChatResponse.error data) "An error occurred")
       end ∧
       message_view m ≠ LoadingBlock) ∧
    (message_view m = LoadingBlock ↔
     ∃ err, fetch (trim (App.question st)) = fetch_throws err ∧
            error_message err = Some "").
Proof.
  intros Hq Hl.
  destruct (handleSubmit_sent clock stamp fetch st Hq Hl) as (f & -> & Hf).
  simpl. rewrite update_message_last by reflexivity.
  eexists. split; [reflexivity|].
  destruct (fetch (trim (App.question st))) as [err|data]; subst f.
  - split; [reflexivity|]. split; [reflexivity|].
    split; [intros data [=]|].
    unfold message_view. simpl.
    destruct (error_message err) as [[|c msg]|] eqn:E; simpl.
    + split; [eauto | reflexivity].
    + split; [discriminate | intros (err' & [= <-] & He); congruence].
    + split; [discriminate | intros (err' & [= <-] & He); congruence].
  - destruct (if ChatResponse.success data then ChatResponse.data data
              else None) as [d|] eqn:Ed.
    + split; [reflexivity|]. split; [reflexivity|]. split.
      * intros data' [= <-]. rewrite Ed. split; [reflexivity | discriminate].
      * split; [discriminate | intros (err & [=] & _)].
    + split; [reflexivity|]. split; [reflexivity|]. split.
      * intros data' [= <-]. rewrite Ed, or_string_error_view.
        split; [reflexivity | discriminate].
      * rewrite or_string_error_view.
        split; [discriminate | intros (err & [=] & _)].
Qed.

(** The theorem at the state [typed], for a request that fails without a
    message: the new message is left with the spinner. *)
Lemma view_of_the_submitted_message_witness :
  ∃ m,
    last (App.messages
            (handleSubmit 1700000000000 1700000000001 silent_failure typed).2)
      = Some m ∧
    Message.question m = "Capital of France?" ∧
    message_view m = LoadingBlock.
Proof.
  destruct (view_of_the_submitted_message 1700000000000 1700000000001
              silent_failure typed eq_refl eq_refl)
    as (m & Hlast & _ & Hq & _ & Hload).
  exists m. split; [exact Hlast|]. split; [exact Hq|].
  apply Hload. eexists. split; reflexivity.
Defined.

Lemma served_by_server w : served_by w (server w).
Proof. intros q r H. unfold server. rewrite H. reflexivity. Qed.

(** X20: end to end, when the controller serves the request the user sees
    the response of the completed workflow if the synthesis call succeeded,
    and otherwise the error "Failed to synthesize responses with Claude". *)
Theorem user_sees_the_answer_or_the_synthesis_error (w : World)
    (clock stamp : Z) (fetch : string → Fetched) (st : App.t) :
  served_by w fetch →
  is_empty (trim (App.question st)) = false → App.loading st = false →
  let q := trim (App.question st) in
  ∃ m,
    last (App.messages (handleSubmit clock stamp fetch st).2) = Some m ∧
    ((synthesis_succeeds w q ∧
      ∃ s d,
        outcome (executeAgentWorkflow w q) = Fulfilled s ∧
        formatSuccessResponse s = ChatResponse.mk true (Some d) None None ∧
        message_view m = ResponseBlock d) ∨
     (synthesis_fails w q ∧
      message_view m
      = ErrorBlock "Failed to synthesize responses with Claude")).
Proof.
  intros Hserved Hq Hl q.
  destruct (handleSubmit_sent clock stamp fetch st Hq Hl) as (f & -> & Hf).
  simpl. rewrite update_message_last by reflexivity.
  eexists. split; [reflexivity|].
  assert (Ha : accepted (JsString q) = Some q).
  { unfold q. rewrite accepted_JsString, trim_idem, Hq. reflexivity. }
  pose proof (askQuestion_run w _ _ Ha) as Hrun.
  unfold q in Hrun. rewrite trim_idem in Hrun. fold q in Hrun, Hf.
  specialize (Hserved q _ (f_equal outcome Hrun)). simpl in Hserved.
  rewrite Hserved in Hf. subst f.
  destruct (remote w Claude (workflow_prompt w q)) as [e|reply] eqn:E; simpl.
  - right. split; [eapply synthesis_fails_here, E | reflexivity].
  - left. split; [eapply synthesis_succeeds_here, E|].
    eexists (final_state w q reply), _.
    split; [|split; reflexivity].
    rewrite executeAgentWorkflow_run. simpl. rewrite E. reflexivity.
Qed.

(** The theorem at the state [typed], served in the world [claude_down]. *)
Lemma user_sees_the_answer_or_the_synthesis_error_witness :
  ∃ m,
    last (App.messages
            (handleSubmit 1700000000000 1700000000001 (server claude_down)
               typed).2)
      = Some m ∧
    message_view m = ErrorBlock "Failed to synthesize responses with Claude".
Proof.
  destruct (user_sees_the_answer_or_the_synthesis_error claude_down
              1700000000000 1700000000001 (server claude_down) typed
              (served_by_server claude_down) eq_refl eq_refl)
    as (m & Hlast & [[Hok _]|[_ Hview]]).
  - destruct (synthesis_not_both _ _ Hok).
    apply (synthesis_fails_here _ _ (JsError "overloaded"
                                       (Some "Error: overloaded"))).
    reflexivity.
  - exists m. split; [exact Hlast | exact Hview].
Defined.

(** X21: in a response the card of a branch shows the fixed error message
    of the branch when its remote call failed, and its response text when
    it succeeded. *)
Theorem agent_cards_show_text_or_error (w : World) (q : string) :
  synthesis_succeeds w q →
  ∃ s d,
    outcome (executeAgentWorkflow w q) = Fulfilled s ∧
    formatSuccessResponse s = ChatResponse.mk true (Some d) None None ∧
    ∀ b, agent_card (reported b d) =
         match remote w (branch_agent b) q with
         | inr text => AgentTextCard text
         | inl _ => AgentErrorCard (wrapper_message b)
         end.
Proof.
  intros (reply & _ & Hrun & _)%completed_workflow.
  destruct (reported_fields (final_state w q reply)) as (d & Hd & _).
  exists (final_state w q reply), d.
  split; [exact Hrun|]. split; [exact Hd|].
  intros b. destruct (reported_branch w q reply b) as (d' & Hd' & Hb).
  assert (d' = d) as -> by congruence. rewrite Hb.
  destruct (remote w (branch_agent b) q); [|reflexivity].
  destruct b; reflexivity.
Qed.

(** The theorem at the request [gemini_down]. *)
Lemma agent_cards_show_text_or_error_witness :
  ∃ s d,
    outcome (executeAgentWorkflow gemini_down "Capital of France?")
      = Fulfilled s ∧
    formatSuccessResponse s = ChatResponse.mk true (Some d) None None ∧
    ∀ b, agent_card (reported b d) =
         match b with
         | BranchA => AgentErrorCard "Failed to get response from Gemini"
         | BranchB => AgentTextCard "Paris, France"
         end.
Proof.
  destruct (agent_cards_show_text_or_error gemini_down "Capital of France?")
    as (s & d & Hs & Hd & Hb).
  - apply (synthesis_succeeds_here _ _ paris_reply). reflexivity.
  - exists s, d. split; [exact Hs|]. split; [exact Hd|].
    intros b. rewrite Hb. destruct b; reflexivity.
Defined.
